(** * Trading bot: command router and order executor

    A shallow embedding of the class [TradingBot] and of [scQuery]
    ([src/utils.ts]) with the types of [src/types.ts].

    Conventions of the embedding.
    - A JavaScript string is a Rocq [string]; a character is one code
      unit.  The white space of [String.prototype.trim] and of the
      regular expression class [\s] is the ASCII white space (TAB, LF,
      VT, FF, CR, SPACE); the line terminators excluded by the regular
      expression [.] are LF and CR.  Texts with non-ASCII white space are
      outside the model.
    - A JavaScript [number] is [NaN], a signed infinity or the exact
      rational value of a binary64 number: [parseFloat], [parseInt],
      [10 ** d] and [toNumber] round to the nearest binary64 number,
      ties to even, as the engines do (the language allows them an
      approximation beyond twenty significant digits, and for the power).
      The sign of a zero is not kept.  A [BigNumber] is [NaN], a signed
      infinity or an exact decimal; made from a number, it reads the
      decimal that the number prints as.
    - A chat id is an integer; the chat ids that a message can carry
      are those that binary64 holds.
    - External services (the chat transport, the remote query, the HTTP
      balance API, the wallet) are a record of answers [Env]; what the
      bot does to them is a trace of [Event]s.
    - An [async] handler is run to completion before the next handler of
      the same message starts. *)

From Stdlib Require Import ZArith QArith Qround Lqa Strings.String Strings.Ascii List Lia.
From Stdlib Require Import Numbers.DecimalString.
From Stdlib Require Numbers.DecimalPos QArith.Qcanon.
From stdpp Require Import base gmap sets list strings.

Open Scope string_scope.
Open Scope list_scope.

(** ** JavaScript strings *)

Module JsString.

Definition is_space (c : ascii) : bool :=
  let n := nat_of_ascii c in
  ((9 <=? n)%nat && (n <=? 13)%nat) || (n =? 32)%nat.

Definition is_line_terminator (c : ascii) : bool :=
  let n := nat_of_ascii c in
  (n =? 10)%nat || (n =? 13)%nat.

Fixpoint trimStart (s : string) : string :=
  match s with
  | EmptyString => EmptyString
  | String c s' => if is_space c then trimStart s' else s
  end.

Fixpoint trimEnd (s : string) : string :=
  match s with
  | EmptyString => EmptyString
  | String c s' =>
      match trimEnd s' with
      | EmptyString => if is_space c then EmptyString else String c EmptyString
      | t => String c t
      end
  end.

(** [s.trim()] *)
Definition trim (s : string) : string := trimEnd (trimStart s).

(** Puts [c] in front of the first piece of a split. *)
Definition cons_head (c : ascii) (l : list string) : list string :=
  match l with
  | [] => [String c EmptyString]
  | t :: ts => String c t :: ts
  end.

(** [s.split(",")], with the separator a single character. *)
Fixpoint split_char (sep : ascii) (s : string) : list string :=
  match s with
  | EmptyString => [EmptyString]
  | String c s' =>
      if Ascii.eqb c sep then EmptyString :: split_char sep s'
      else cons_head c (split_char sep s')
  end.

(** [s.split(/\s+/)]: [in_sep] holds while a run of white space is
    being skipped. *)
Fixpoint split_ws_from (in_sep : bool) (s : string) : list string :=
  match s with
  | EmptyString => [EmptyString]
  | String c s' =>
      if is_space c then
        if in_sep then split_ws_from true s'
        else EmptyString :: split_ws_from true s'
      else cons_head c (split_ws_from false s')
  end.

Definition split_ws (s : string) : list string := split_ws_from false s.

(** [s.startsWith(p)], returning what follows the prefix. *)
Fixpoint strip_prefix (p s : string) : option string :=
  match p, s with
  | EmptyString, _ => Some s
  | String a p', String b s' =>
      if Ascii.eqb a b then strip_prefix p' s' else None
  | String _ _, EmptyString => None
  end.

Definition startsWith (s p : string) : bool :=
  match strip_prefix p s with Some _ => true | None => false end.

(** The text that follows the leftmost occurrence of the literal [p];
    [None] when [p] does not occur: the unanchored regular expression
    [/p/]. *)
Fixpoint search (p s : string) : option string :=
  match strip_prefix p s with
  | Some rest => Some rest
  | None =>
      match s with
      | EmptyString => None
      | String _ s' => search p s'
      end
  end.

(** The capture group (dot, star): the longest prefix without a line
    terminator. *)
Fixpoint dot_star (s : string) : string :=
  match s with
  | EmptyString => EmptyString
  | String c s' =>
      if is_line_terminator c then EmptyString else String c (dot_star s')
  end.

(** [regexp.exec(text)] for the literal [p]: is there a match. *)
Definition exec (p text : string) : bool :=
  match search p text with Some _ => true | None => false end.

(** [regexp.exec(text)] for the literal [p] followed by the capture
    group: the captured text, [match[1]], of the leftmost match. *)
Definition exec_group (p text : string) : option string :=
  match search p text with
  | Some rest => Some (dot_star rest)
  | None => None
  end.

(** A string is truthy when it is not empty. *)
Definition truthy (s : string) : bool :=
  match s with EmptyString => false | _ => true end.

(** [s.slice(0, n)] for [0 <= n] *)
Definition slice_to (n : nat) (s : string) : string := substring 0 n s.

(** [s.slice(-n)] for [0 < n] *)
Definition slice_last (n : nat) (s : string) : string :=
  substring (String.length s - n) n s.

End JsString.

(** ** JavaScript numbers and [BigNumber] *)

Module JsNumber.
Import JsString.

Inductive number : Type :=
| NaN
| Infinity (negative : bool)
| Finite (q : Q).

(** The global [isNaN] on a number. *)
Definition isNaN (x : number) : bool :=
  match x with NaN => true | _ => false end.

(** A number is truthy when it is neither [NaN] nor zero. *)
Definition truthy (x : number) : bool :=
  match x with
  | NaN => false
  | Infinity _ => true
  | Finite q => negb (Qeq_bool q 0)
  end.

Definition of_Z (z : Z) : number := Finite (inject_Z z).

(** *** Rounding to binary64

    A real is turned into a JavaScript number by rounding it to the
    nearest value with a significand of 53 bits, ties going to the even
    significand; below [2 ^ -1022] the last place stays at [2 ^ -1074]
    (subnormal numbers), and a result of [2 ^ 1024] or more is an
    infinity. *)

(** [n / d] rounded to the nearest integer, ties to even, for
    [0 <= n] and [0 < d]. *)
Definition round_half_even (n d : Z) : Z :=
  let q := (n / d)%Z in
  match (2 * (n mod d) ?= d)%Z with
  | Lt => q
  | Gt => (q + 1)%Z
  | Eq => if Z.even q then q else (q + 1)%Z
  end.

(** The integer [e] with [2 ^ e <= n / d < 2 ^ (e + 1)], for positive
    [n] and [d]. *)
Definition exponent (n d : Z) : Z :=
  let e0 := (Z.log2 n - Z.log2 d)%Z in
  if (d * 2 ^ Z.max 0 e0 <=? n * 2 ^ Z.max 0 (- e0))%Z then e0 else (e0 - 1)%Z.

(** The exponent of the last place of the binary64 numbers around
    [n / d]. *)
Definition last_place (n d : Z) : Z := (Z.max (exponent n d) (-1022) - 52)%Z.

(** [n / d] in units of [2 ^ p], rounded. *)
Definition significand (n d p : Z) : Z :=
  round_half_even (n * 2 ^ Z.max 0 (- p)) (d * 2 ^ Z.max 0 p).

(** [m * 2 ^ p], in lowest terms. *)
Definition scaled (m p : Z) : Q :=
  Qred (Qmake (m * 2 ^ Z.max 0 p) (Z.to_pos (2 ^ Z.max 0 (- p)))).

Definition nearest (n d : Z) : Q :=
  let p := last_place n d in scaled (significand n d p) p.

(** The binary64 number nearest to the rational [q].  The sign of a
    zero is not kept. *)
Definition binary64 (q : Q) : number :=
  match Qnum q with
  | Z0 => Finite 0
  | Zpos n =>
      let v := nearest (Zpos n) (Zpos (Qden q)) in
      if Qle_bool (inject_Z (2 ^ 1024)) v then Infinity false else Finite v
  | Zneg n =>
      let v := nearest (Zpos n) (Zpos (Qden q)) in
      if Qle_bool (inject_Z (2 ^ 1024)) v then Infinity true
      else Finite (Qopp v)
  end.

(** *** The decimal a number prints as

    [String(x)] prints the decimal with the fewest significant digits
    that [binary64] takes back to [x]; of two such decimals the one
    nearer to [x], and of two equally near the one whose last digit is
    even.  A number is taken here as the exact value of a binary64
    number, and what is computed is the value of the printed decimal. *)

(** The least [n], from [n] on, with [q < 10 ^ n]. *)
Fixpoint magnitude_from (fuel : nat) (n : Z) (q : Q) : Z :=
  match fuel with
  | O => n
  | S fuel' =>
      if Qle_bool (Qpower 10 n) q then magnitude_from fuel' (n + 1)%Z q else n
  end.

(** The binary64 numbers lie between [10 ^ -324] and [10 ^ 309]. *)
Definition magnitude (q : Q) : Z := magnitude_from 640 (-324) q.

Definition rounds_to (c q : Q) : bool :=
  match binary64 c with
  | Finite r => Qeq_bool r q
  | _ => false
  end.

(** The decimal of [k] digits before the place [10 ^ (n - k)] that
    rounds to [q], if there is one: the candidates are [q] cut at that
    place and the next decimal above. *)
Definition digits (q : Q) (n k : Z) : option Q :=
  let place := Qpower 10 (n - k) in
  let s := Qfloor (q / place) in
  let lo := Qred (inject_Z s * place) in
  let hi := Qred (inject_Z (s + 1) * place) in
  match rounds_to lo q, rounds_to hi q with
  | true, true =>
      match Qcompare (q - lo) (hi - q) with
      | Lt => Some lo
      | Gt => Some hi
      | Eq => Some (if Z.even s then lo else hi)
      end
  | true, false => Some lo
  | false, true => Some hi
  | false, false => None
  end.

Fixpoint shortest_from (fuel : nat) (k : Z) (q : Q) (n : Z) : Q :=
  match fuel with
  | O => q
  | S fuel' =>
      match digits q n k with
      | Some c => c
      | None => shortest_from fuel' (k + 1)%Z q n
      end
  end.

(** Seventeen digits are enough for every binary64 number. *)
Definition shortest (q : Q) : Q := shortest_from 17 1 q (magnitude q).

(** An integer of magnitude at most [2 ^ 53] is a binary64 number and
    prints with all its digits. *)
Definition safe_integer (q : Q) : bool :=
  (Qden q =? 1)%positive && (Z.abs (Qnum q) <=? 2 ^ 53)%Z.

(** The value of the decimal that [String(x)] prints for the finite
    number of value [q]. *)
Definition printed (q : Q) : Q :=
  if safe_integer q then q
  else
    match Qnum q with
    | Z0 => q
    | Zpos _ => shortest q
    | Zneg _ => Qopp (shortest (Qopp q))
    end.

(** [10 ** d]: the power is taken as correctly rounded; it is exact up
    to [d = 22] and an infinity from [d = 309] on. *)
Definition pow10 (d : nat) : number := binary64 (inject_Z (10 ^ Z.of_nat d)).

(** [Math.floor] *)
Definition Math_floor (x : number) : number :=
  match x with
  | Finite q => of_Z (Qfloor q)
  | _ => x
  end.

Definition decimal_digit (c : ascii) : option Z :=
  let n := nat_of_ascii c in
  if ((48 <=? n) && (n <=? 57))%nat then Some (Z.of_nat (n - 48)) else None.

Definition hex_digit (c : ascii) : option Z :=
  let n := nat_of_ascii c in
  if ((48 <=? n) && (n <=? 57))%nat then Some (Z.of_nat (n - 48))
  else if ((65 <=? n) && (n <=? 70))%nat then Some (Z.of_nat (n - 55))
  else if ((97 <=? n) && (n <=? 102))%nat then Some (Z.of_nat (n - 87))
  else None.

(** Reads the longest run of digits at the head of [s]: the value
    accumulated onto [acc], the count of digits read onto [n], and
    the rest of the text. *)
Fixpoint read_digits (digit : ascii -> option Z) (radix acc : Z) (n : nat)
    (s : string) : Z * nat * string :=
  match s with
  | EmptyString => (acc, n, s)
  | String c s' =>
      match digit c with
      | Some d => read_digits digit radix (acc * radix + d) (S n) s'
      | None => (acc, n, s)
      end
  end.

(** An optional sign: is it a minus, and the rest of the text. *)
Definition read_sign (s : string) : bool * string :=
  match s with
  | String "-" s' => (true, s')
  | String "+" s' => (false, s')
  | _ => (false, s)
  end.

(** The integer read by [parseInt], as the number it becomes: the
    nearest binary64 number, which is again an integer; [2 ^ 1024] and
    its opposite, which no binary64 number equals, stand for the two
    infinities. *)
Definition integer_number (v : Z) : Z :=
  match binary64 (inject_Z v) with
  | Finite q => Qfloor q
  | Infinity negative => if negative then (- 2 ^ 1024)%Z else (2 ^ 1024)%Z
  | NaN => 0%Z
  end.

(** [parseInt(s)] with no radix given; [None] stands for [NaN]. *)
Definition parseInt (s : string) : option Z :=
  let '(neg, s1) := read_sign (trimStart s) in
  let '(v, n, _) :=
    match s1 with
    | String "0" (String "x" s2) | String "0" (String "X" s2) =>
        read_digits hex_digit 16 0 0 s2
    | _ => read_digits decimal_digit 10 0 0 s1
    end in
  match n with
  | O => None
  | S _ => Some (integer_number (if neg then (- v)%Z else v))
  end.

(** The exponent part at the head of [s], if it is complete. *)
Definition read_exponent (s : string) : Z :=
  match s with
  | String "e" s' | String "E" s' =>
      let '(neg, s1) := read_sign s' in
      let '(v, n, _) := read_digits decimal_digit 10 0 0 s1 in
      match n with
      | O => 0%Z
      | S _ => if neg then (- v)%Z else v
      end
  | _ => 0%Z
  end.

(** [parseFloat(s)]: the longest prefix that is a decimal literal,
    rounded to binary64. *)
Definition parseFloat (s : string) : number :=
  let '(neg, s1) := read_sign (trimStart s) in
  match strip_prefix "Infinity" s1 with
  | Some _ => Infinity neg
  | None =>
      let '(ip, n_ip, s2) := read_digits decimal_digit 10 0 0 s1 in
      let '(m, n_fp, s3) :=
        match s2 with
        | String "." s2' => read_digits decimal_digit 10 ip 0 s2'
        | _ => (ip, O, s2)
        end in
      match (n_ip + n_fp)%nat with
      | O => NaN
      | S _ =>
          let e := (read_exponent s3 - Z.of_nat n_fp)%Z in
          let v := (inject_Z m * Qpower (inject_Z 10) e)%Q in
          binary64 (if neg then Qopp v else v)
      end
  end.

End JsNumber.

Module BigNumber.
Import JsNumber.

(** A [BigNumber] is [NaN], an infinity or an exact decimal: the type
    [number] with [Finite q] read as the decimal [q].

    [new BigNumber(x)] of a number reads the decimal that [String(x)]
    prints. *)
Definition BigNumber (x : number) : number :=
  match x with
  | Finite q => Finite (printed q)
  | _ => x
  end.

(** [x.times(y)] of two [BigNumber]s; the product is exact. *)
Definition times (x y : number) : number :=
  match x, y with
  | NaN, _ | _, NaN => NaN
  | Infinity a, Infinity b => Infinity (xorb a b)
  | Infinity a, Finite q | Finite q, Infinity a =>
      if Qeq_bool q 0 then NaN else Infinity (xorb a (negb (Qle_bool 0 q)))
  | Finite p, Finite q => Finite (Qred (p * q))
  end.

(** [x.isNaN()] *)
Definition isNaN (x : number) : bool := JsNumber.isNaN x.

(** [x.isLessThanOrEqualTo(0)] *)
Definition isLessThanOrEqualTo0 (x : number) : bool :=
  match x with
  | NaN => false
  | Infinity negative => negative
  | Finite q => Qle_bool q 0
  end.

(** [x.toNumber()]: the binary64 number nearest to the decimal. *)
Definition toNumber (x : number) : number :=
  match x with
  | Finite q => binary64 q
  | _ => x
  end.

End BigNumber.

#[global] Arguments JsNumber.binary64 : simpl never.
#[global] Arguments JsNumber.printed : simpl never.

(** ** Data model ([src/types.ts] and the shapes read from the services) *)

Import JsNumber.

Record CommandPayload : Type := {
  token : string;
  amount : option number
}.

Inductive CommandType : Type := buy | sell.

Definition CommandType_text (command : CommandType) : string :=
  match command with buy => "buy" | sell => "sell" end.

Module SwapParams.
Record t : Type := {
  address : string;
  tokenToReceive : string;
  tokenToSend : string;
  minAmountToReceive : number;
  amountToSend : number
}.
End SwapParams.

(** One entry of [getAllBondingMetadata], its address already in bech32. *)
Record BondingMetadata : Type := {
  first_token_id : string;
  address : string
}.

(** One entry of [/accounts/<wallet>/tokens]; [balance] is the value
    [new BigNumber(token.balance)] reads. *)
Record TokenBalance : Type := {
  identifier : string;
  balance : number;
  decimals : nat
}.

Record Error : Type := { message : string }.

Record Esdt : Type := {
  esdt_amount : number;
  esdt_nonce : Z;
  esdt_id : string
}.

Inductive FuncArg : Type :=
| e_Str (s : string)
| e_U (n : number).

(** The argument of [wallet.callContract]. *)
Record CallSpec : Type := {
  callee : string;
  gasLimit : Z;
  funcName : string;
  esdts : list Esdt;
  funcArgs : list FuncArg
}.

Record TxResult : Type := { explorerUrl : option string }.

Record Message : Type := {
  chat_id : Z;
  text : option string
}.

(** ** Effects *)

(** What the bot does to the outside. *)
Inductive Event : Type :=
| sendMessage (chatId : Z) (content : string)
| console_warn (content : string)
| console_log (content : string)
| console_error (label detail : string)
| queryContract (strAddress func : string)
| newWalletFromFile
| api_get (url : string)
| callContract (call : CallSpec).

(** What the outside answers: the decoded first value of the contract
    query ([None] when [firstValue] is undefined), the wallet address,
    the token list of an account URL, the outcome of a contract call.
    [balance_text b d] is the text that bignumber.js makes of
    [new BigNumber(b).div(10 ** d).toFixed(2)]; its decimal rendering is
    not modelled. *)
Record Env : Type := {
  queryContract_answer : Error + option (list BondingMetadata);
  newWalletFromFile_answer : Error + string;
  api_get_answer : string -> Error + list TokenBalance;
  callContract_answer : CallSpec -> Error + TxResult;
  balance_text : number -> nat -> string
}.

(** A computation reads the answers, appends to the trace and either
    throws or returns. *)
Definition M (A : Type) : Type := Env -> list Event * (Error + A).

#[global] Instance M_ret : MRet M := fun A (a : A) _ => ([], inr a).

#[global] Instance M_bind : MBind M := fun A B (k : A -> M B) (m : M A) env =>
  match m env with
  | (tr, inl e) => (tr, inl e)
  | (tr, inr a) => let '(tr', r) := k a env in (tr ++ tr', r)
  end.

Definition throw {A : Type} (e : Error) : M A := fun _ => ([], inl e).

Definition try_catch {A : Type} (m : M A) (handler : Error -> M A) : M A :=
  fun env =>
    match m env with
    | (tr, inl e) => let '(tr', r) := handler e env in (tr ++ tr', r)
    | (tr, inr a) => (tr, inr a)
    end.

Definition emit (ev : Event) : M unit := fun _ => ([ev], inr tt).

Definition ask : M Env := fun env => ([], inr env).

(** A call to a service: the event, then the service's answer. *)
Definition call {A : Type} (ev : Event) (answer : Env -> Error + A) : M A :=
  fun env => ([ev], answer env).

Definition trace {A : Type} (r : list Event * (Error + A)) : list Event := fst r.
Definition outcome {A : Type} (r : list Event * (Error + A)) : Error + A := snd r.

Definition LF : string := String (ascii_of_nat 10) EmptyString.

(** ** [scQuery] *)

Definition scQuery (strAddress func : string) : M (option (list BondingMetadata)) :=
  try_catch
    (call (queryContract strAddress func) queryContract_answer)
    (fun error =>
       emit (console_log ("query error for " +:+ func +:+ "  : , error")) ;;
       throw error).

(** ** The chat transport *)

(** The two shapes of regular expression the bot registers: a literal,
    and a literal followed by one capture group (dot, star). *)
Inductive RegExp : Type :=
| RegExp_literal (p : string)
| RegExp_capture (p : string).

(** [regexp.exec(text)]: [None] when there is no match, otherwise
    [match[1]], which is undefined ([None]) without a capture group. *)
Definition RegExp_exec (r : RegExp) (s : string) : option (option string) :=
  match r with
  | RegExp_literal p => if JsString.exec p s then Some None else None
  | RegExp_capture p =>
      match JsString.exec_group p s with
      | Some g => Some (Some g)
      | None => None
      end
  end.

Definition TextCallback : Type := RegExp * (Message -> option string -> M unit).

(** The listeners registered on the transport with [on("message")] and
    [onText]. *)
Record TelegramBot : Type := {
  message_listeners : list (Message -> M unit);
  textRegexpCallbacks : list TextCallback
}.

Fixpoint run_listeners (ls : list (Message -> M unit)) (msg : Message) : M unit :=
  match ls with
  | [] => mret tt
  | l :: ls' => l msg ;; run_listeners ls' msg
  end.

Fixpoint run_callbacks (cbs : list TextCallback) (msg : Message) (s : string) : M unit :=
  match cbs with
  | [] => mret tt
  | (regexp, callback) :: cbs' =>
      match RegExp_exec regexp s with
      | Some group => callback msg group
      | None => mret tt
      end ;;
      run_callbacks cbs' msg s
  end.

(** An incoming message: the [message] listeners run, then, for a
    message with a text, every text callback whose expression matches,
    in the order of registration. *)
Definition processUpdate (bot : TelegramBot) (msg : Message) : M unit :=
  run_listeners (message_listeners bot) msg ;;
  match text msg with
  | Some s =>
      if JsString.truthy s then run_callbacks (textRegexpCallbacks bot) msg s
      else mret tt
  | None => mret tt
  end.

(** ** [TradingBot] *)

Record TradingBot : Type := { authorizedChatIds : gset Z }.

Definition unauthorized_text : string :=
  "⛔ Unauthorized access. This bot is private.".

Definition warning_text : string :=
  "No authorized chat IDs configured. Bot is currently accessible to everyone.".

Definition isAuthorized (this : TradingBot) (chatId : Z) : M bool :=
  if (size (authorizedChatIds this) =? 0)%nat then
    emit (console_warn warning_text) ;;
    mret true
  else mret (bool_decide (chatId ∈ authorizedChatIds this)).

Definition usage_text (command : string) : string :=
  "❌ Invalid command format. Usage:" +:+ LF +:+
  "/" +:+ command +:+ " <token> [amount]" +:+ LF +:+ LF +:+
  "Example:" +:+ LF +:+
  "/" +:+ command +:+ " TOKEN-123 100".

Definition sendUsageError (chatId : Z) (command : string) : M unit :=
  emit (sendMessage chatId (usage_text command)).

Definition loadWallet : M string :=
  call newWalletFromFile newWalletFromFile_answer.

Definition swap_call (params : SwapParams.t) : CallSpec :=
  {| callee := SwapParams.address params;
     gasLimit := 10000000;
     funcName := "swap";
     esdts := [ {| esdt_amount := Math_floor (SwapParams.amountToSend params);
                   esdt_nonce := 0;
                   esdt_id := SwapParams.tokenToSend params |} ];
     funcArgs := [ e_Str (SwapParams.tokenToReceive params);
                   e_U (SwapParams.minAmountToReceive params) ] |}.

Definition swapToken (params : SwapParams.t) : M TxResult :=
  _ ← loadWallet ;
  call (callContract (swap_call params))
       (fun env => callContract_answer env (swap_call params)).

(** The message of the [TypeError] of [data.find] on an undefined [data]. *)
Definition undefined_find_text : string :=
  "Cannot read properties of undefined (reading 'find')".

(** The address of the contract that is asked for the bonding metadata. *)
Definition registry : string :=
  "erd1qqqqqqqqqqqqqpgqg0sshhkwaxz8fxu47z4svrmp48mzydjlptzsdhxjpd".

(** The test of [data.find]: [contract.first_token_id === tokenId]. *)
Definition matches (tokenId : string) (contract : BondingMetadata) : bool :=
  String.eqb (first_token_id contract) tokenId.

Definition findContractAddress (tokenId : string) : M string :=
  try_catch
    (result ← scQuery registry "getAllBondingMetadata" ;
     match result with
     | None => throw {| message := undefined_find_text |}
     | Some data =>
         match List.find (matches tokenId) data with
         | None => throw {| message := "No contract found for token " +:+ tokenId |}
         | Some matchingContract => mret (address matchingContract)
         end
     end)
    (fun error =>
       emit (console_error "Error finding contract address:" (message error)) ;;
       throw {| message :=
         "Failed to find contract for token " +:+ tokenId +:+ ": " +:+ message error |}).

Definition base_token : string := "ONE-f9954f".

(** The number literal [0.98]. *)
Definition literal_0_98 : number := binary64 (98 # 100).

(** [new BigNumber(tokenBalance.balance).times(0.98)]; [times] reads its
    argument, a number, as [new BigNumber] does. *)
Definition default_amount (tokenBalance : TokenBalance) : number :=
  BigNumber.times (balance tokenBalance) (BigNumber.BigNumber literal_0_98).

(** [amountToPay] of [handleBuy]. *)
Definition amountToPay (payload : CommandPayload) (tokenBalance : TokenBalance) : number :=
  match amount payload with
  | Some a =>
      if truthy a then
        BigNumber.times (BigNumber.BigNumber a) (BigNumber.BigNumber (pow10 18))
      else default_amount tokenBalance
  | None => default_amount tokenBalance
  end.

(** [amountToSell] of [handleSell]. *)
Definition amountToSell (payload : CommandPayload) (tokenBalance : TokenBalance) : number :=
  match amount payload with
  | Some a =>
      if truthy a then
        BigNumber.times (BigNumber.BigNumber a)
          (BigNumber.BigNumber (pow10 (decimals tokenBalance)))
      else default_amount tokenBalance
  | None => default_amount tokenBalance
  end.

(** The guard on the computed amount, shared by both orders. *)
Definition check_amount (computed : number) : M unit :=
  if BigNumber.isNaN computed || BigNumber.isLessThanOrEqualTo0 computed
  then throw {| message := "Invalid amount calculated" |}
  else mret tt.

Definition found_text (contractAddress : string) : string :=
  "✅ Found trading contract: " +:+ JsString.slice_to 8 contractAddress +:+
  "..." +:+ JsString.slice_last 4 contractAddress.

Definition success_text (result : TxResult) : string :=
  let txUrl :=
    match explorerUrl result with
    | Some u => if JsString.truthy u then u
                else "Transaction submitted (URL not available)"
    | None => "Transaction submitted (URL not available)"
    end in
  "✅ Transaction successful!" +:+ LF +:+ LF +:+ "View on explorer: " +:+ txUrl.

Definition tokens_url (wallet : string) : string :=
  "/accounts/" +:+ wallet +:+ "/tokens".

Definition api_get_tokens (wallet : string) : M (list TokenBalance) :=
  call (api_get (tokens_url wallet)) (fun env => api_get_answer env (tokens_url wallet)).

(** The [try] block of [handleBuy]. *)
Definition buy_order (chatId : Z) (payload : CommandPayload) : M unit :=
  emit (sendMessage chatId
    ("🔍 Processing buy order for token: " +:+ token payload +:+ "...")) ;;
  contractAddress ← findContractAddress (token payload) ;
  emit (sendMessage chatId (found_text contractAddress)) ;;
  wallet ← loadWallet ;
  let tokenToSend := base_token in
  response ← api_get_tokens wallet ;
  match List.find (fun t => String.eqb (identifier t) tokenToSend) response with
  | None => throw {| message := "Token " +:+ tokenToSend +:+ " not found in wallet" |}
  | Some tokenBalance =>
      let amountToPay := amountToPay payload tokenBalance in
      check_amount amountToPay ;;
      emit (sendMessage chatId "💫 Submitting transaction to blockchain...") ;;
      result ← swapToken
        {| SwapParams.address := contractAddress;
           SwapParams.tokenToSend := tokenToSend;
           SwapParams.amountToSend := BigNumber.toNumber amountToPay;
           SwapParams.minAmountToReceive := BigNumber.toNumber (BigNumber.BigNumber (of_Z 1));
           SwapParams.tokenToReceive := token payload |} ;
      emit (sendMessage chatId (success_text result))
  end.

Definition handleBuy (chatId : Z) (payload : CommandPayload) : M unit :=
  try_catch (buy_order chatId payload)
    (fun error =>
       emit (console_error "Error in buyToken:" (message error)) ;;
       emit (sendMessage chatId ("❌ Transaction failed: " +:+ message error)) ;;
       throw error).

(** The [try] block of [handleSell]. *)
Definition sell_order (chatId : Z) (payload : CommandPayload) : M unit :=
  emit (sendMessage chatId
    ("🔍 Processing sell order for token: " +:+ token payload +:+ "...")) ;;
  contractAddress ← findContractAddress (token payload) ;
  emit (sendMessage chatId (found_text contractAddress)) ;;
  wallet ← loadWallet ;
  response ← api_get_tokens wallet ;
  match List.find (fun t => String.eqb (identifier t) (token payload)) response with
  | None => throw {| message := "Token " +:+ token payload +:+ " not found in wallet" |}
  | Some tokenBalance =>
      let amountToSell := amountToSell payload tokenBalance in
      check_amount amountToSell ;;
      emit (sendMessage chatId "💫 Submitting transaction to blockchain...") ;;
      result ← swapToken
        {| SwapParams.address := contractAddress;
           SwapParams.tokenToSend := token payload;
           SwapParams.amountToSend := BigNumber.toNumber amountToSell;
           SwapParams.minAmountToReceive := BigNumber.toNumber (BigNumber.BigNumber (of_Z 1));
           SwapParams.tokenToReceive := base_token |} ;
      emit (sendMessage chatId (success_text result))
  end.

Definition handleSell (chatId : Z) (payload : CommandPayload) : M unit :=
  try_catch (sell_order chatId payload)
    (fun error =>
       emit (console_error "Error in sellToken:" (message error)) ;;
       emit (sendMessage chatId ("❌ Transaction failed: " +:+ message error)) ;;
       throw error).

Definition handleCommand (command : CommandType) (msg : Message)
    (token : string) (amount : option number) : M unit :=
  let chatId := chat_id msg in
  let payload := {| token := token; amount := amount |} in
  try_catch
    (match command with
     | buy => handleBuy chatId payload
     | sell => handleSell chatId payload
     end)
    (fun error =>
       emit (sendMessage chatId
         ("Error processing " +:+ CommandType_text command +:+ " order: " +:+
          message error))).

(** *** Command validation *)

Inductive Validation : Type :=
| UsageError
| InvalidAmount
| Valid (token : string) (amount : option number).

(** The checks of the [/buy] and [/sell] callbacks on [match[1]], the
    text captured after the command, up to the call of [handleCommand]. *)
Definition validate (match1 : option string) : Validation :=
  match match1 with
  | None => UsageError
  | Some captured =>
      if negb (JsString.truthy captured) then UsageError
      else
        let params := JsString.split_ws (JsString.trim captured) in
        match params with
        | [] => UsageError
        | token :: rest =>
            let amount :=
              match rest with
              | amountStr :: _ =>
                  if JsString.truthy amountStr then Some (parseFloat amountStr)
                  else None
              | [] => None
              end in
            match amount with
            | Some a => if isNaN a then InvalidAmount else Valid token amount
            | None => Valid token amount
            end
        end
  end.

Definition order_callback (this : TradingBot) (command : CommandType)
    (msg : Message) (match1 : option string) : M unit :=
  authorized ← isAuthorized this (chat_id msg) ;
  if negb authorized then mret tt
  else
    match validate match1 with
    | UsageError => sendUsageError (chat_id msg) (CommandType_text command)
    | InvalidAmount => emit (sendMessage (chat_id msg) "❌ Invalid amount provided")
    | Valid token amount => handleCommand command msg token amount
    end.

(** *** The other commands *)

Definition help_text : string :=
  "Available commands:" +:+ LF +:+
  "• /buy <token> [amount] - Buy tokens (amount optional)" +:+ LF +:+
  "• /sell <token> [amount] - Sell tokens (amount optional)" +:+ LF +:+ LF +:+
  "Examples:" +:+ LF +:+
  "/buy TOKEN-123 100" +:+ LF +:+
  "/sell TOKEN-abc".

Definition help_callback (this : TradingBot) (msg : Message) (_ : option string) : M unit :=
  authorized ← isAuthorized this (chat_id msg) ;
  if negb authorized then mret tt
  else emit (sendMessage (chat_id msg) help_text).

Definition welcome_text (wallet : string) : string :=
  "Welcome to the Trading Bot! 🤖" +:+ LF +:+ LF +:+
  "This bot allows you to buy and sell tokens using simple commands." +:+ LF +:+
  "Your associated wallet address is: " +:+ wallet +:+ LF +:+ LF +:+
  "Use /help to see available commands." +:+ LF +:+
  "Use /address to see your current token balances.".

Definition start_callback (this : TradingBot) (msg : Message) (_ : option string) : M unit :=
  authorized ← isAuthorized this (chat_id msg) ;
  if negb authorized then mret tt
  else
    let chatId := chat_id msg in
    try_catch
      (wallet ← loadWallet ;
       emit (sendMessage chatId (welcome_text wallet)))
      (fun _ => emit (sendMessage chatId
         "Welcome to the Trading Bot! An error occurred while fetching your wallet address. Please try /address later.")).

Fixpoint join (sep : string) (l : list string) : string :=
  match l with
  | [] => EmptyString
  | [x] => x
  | x :: l' => x +:+ sep +:+ join sep l'
  end.

Definition balance_line (env : Env) (t : TokenBalance) : string :=
  hd EmptyString (JsString.split_char "-" (identifier t)) +:+ ": " +:+
  balance_text env (balance t) (decimals t).

Definition address_callback (this : TradingBot) (msg : Message) (_ : option string) : M unit :=
  authorized ← isAuthorized this (chat_id msg) ;
  if negb authorized then mret tt
  else
    let chatId := chat_id msg in
    try_catch
      (wallet ← loadWallet ;
       response ← api_get_tokens wallet ;
       env ← ask ;
       let balances := join LF (map (balance_line env) response) in
       emit (sendMessage chatId
         ("Wallet Address: " +:+ wallet +:+ LF +:+ "Balances:" +:+ LF +:+ balances)))
      (fun _ => emit (sendMessage chatId "Error fetching address and balances.")).

Definition Z_text (z : Z) : string := NilZero.string_of_int (Z.to_int z).

Definition chatid_text (chatId : Z) : string :=
  "Your Chat ID is: " +:+ Z_text chatId +:+ LF +:+ LF +:+
  "To authorize this chat, add this ID to the TELEGRAM_CHATS_IDS environment variable.".

Definition chatid_callback (msg : Message) (_ : option string) : M unit :=
  emit (sendMessage (chat_id msg) (chatid_text (chat_id msg))).

(** *** Registration *)

(** The middleware on every message. *)
Definition message_listener (this : TradingBot) (msg : Message) : M unit :=
  authorized ← isAuthorized this (chat_id msg) ;
  if negb authorized &&
     match text msg with Some s => JsString.startsWith s "/" | None => false end
  then emit (sendMessage (chat_id msg) unauthorized_text)
  else mret tt.

Definition setupCommandHandlers (this : TradingBot) : TelegramBot :=
  {| message_listeners := [ message_listener this ];
     textRegexpCallbacks :=
       [ (RegExp_literal "/help", help_callback this);
         (RegExp_capture "/buy", order_callback this buy);
         (RegExp_capture "/sell", order_callback this sell);
         (RegExp_literal "/start", start_callback this);
         (RegExp_literal "/address", address_callback this) ] |}.

(** Declared by the class, called from nowhere. *)
Definition setupAdditionalCommands (bot : TelegramBot) : TelegramBot :=
  {| message_listeners := message_listeners bot;
     textRegexpCallbacks :=
       textRegexpCallbacks bot ++ [ (RegExp_literal "/chatid", chatid_callback) ] |}.

(** [parseInt] results that passed [!isNaN], as a [Set]. *)
Definition Set_of (ids : list (option Z)) : gset Z := list_to_set (omap id ids).

Definition parse_chat_ids (chatIdsStr : string) : list (option Z) :=
  List.filter (fun n => match n with None => false | Some _ => true end)
    (map (fun s => parseInt (JsString.trim s)) (JsString.split_char "," chatIdsStr)).

(** [new TradingBot(token)]; the argument here is the environment
    variable [TELEGRAM_CHATS_IDS], [None] when it is not set. *)
Definition constructor (TELEGRAM_CHATS_IDS : option string) : TradingBot * TelegramBot :=
  let chatIdsStr :=
    match TELEGRAM_CHATS_IDS with
    | Some s => if JsString.truthy s then s else EmptyString
    | None => EmptyString
    end in
  let this := {| authorizedChatIds := Set_of (parse_chat_ids chatIdsStr) |} in
  (this, setupCommandHandlers this).

(** The bot at work: the messages are handled one after the other; the
    object is handed on as it is, since no method assigns a field. *)
Fixpoint run (app : TradingBot * TelegramBot) (msgs : list Message) (env : Env)
    : (TradingBot * TelegramBot) * list Event :=
  match msgs with
  | [] => (app, [])
  | msg :: msgs' =>
      let tr := trace (processUpdate (snd app) msg env) in
      let '(app', tr') := run app msgs' env in
      (app', tr ++ tr')
  end.

(** ** Sample data *)

Module Sample.

Definition metadata : list BondingMetadata :=
  [ {| first_token_id := "AAA-1"; address := "erd1qqqqqqqqqqqqqaaa" |};
    {| first_token_id := "TKN-1"; address := "erd1qqqqqqqqqqqqqabc" |};
    {| first_token_id := "TKN-1"; address := "erd1qqqqqqqqqqqqqxyz" |} ].

Definition tokens (b : Z) : list TokenBalance :=
  [ {| identifier := "ONE-f9954f"; balance := of_Z b; decimals := 18 |};
    {| identifier := "AAA-1"; balance := of_Z 5000; decimals := 2 |} ].

(** Every service answers; the wallet holds [b] units of the base
    token. *)
Definition env (b : Z) : Env :=
  {| queryContract_answer := inr (Some metadata);
     newWalletFromFile_answer := inr "erd1wallet";
     api_get_answer := fun _ => inr (tokens b);
     callContract_answer := fun _ => inr {| explorerUrl := Some "https://explorer/tx/1" |};
     balance_text := fun _ _ => "0.00" |}.


Definition msg (chatId : Z) (s : string) : Message :=
  {| chat_id := chatId; text := Some s |}.

(** The bot configured with [TELEGRAM_CHATS_IDS=1, 2]. *)
Definition app : TradingBot * TelegramBot := constructor (Some "1, 2").

(** [/buy TKN-1], and a wallet entry of one unit of the base token. *)
Definition buy_all : CommandPayload := {| token := "TKN-1"; amount := None |}.

Definition one_unit : TokenBalance :=
  {| identifier := base_token; balance := of_Z 1; decimals := 18 |}.

(** The wallet entry of the base token. *)
Definition base_entry (b : Z) : TokenBalance :=
  {| identifier := "ONE-f9954f"; balance := of_Z b; decimals := 18 |}.

(** The contract call of [/buy TKN-1] with a balance of 1001 units:
    [0.98] times the balance is 980.98. *)
Definition call_980 : CallSpec :=
  {| callee := "erd1qqqqqqqqqqqqqabc";
     gasLimit := 10000000;
     funcName := "swap";
     esdts := [ {| esdt_amount := Finite 980; esdt_nonce := 0;
                   esdt_id := "ONE-f9954f" |} ];
     funcArgs := [ e_Str "TKN-1"; e_U (Finite 1) ] |}.

(** A balance of the base token that binary64 does not hold, and the
    contract call of [/buy TKN-1] with that balance: [0.98] times the
    balance is 980036296295969629626.98, the nearest binary64 number is
    980036296295969587200. *)
Definition large_balance : Z := 1000037037036703703701.

Definition call_all : CallSpec :=
  {| callee := "erd1qqqqqqqqqqqqqabc";
     gasLimit := 10000000;
     funcName := "swap";
     esdts := [ {| esdt_amount := Finite 980036296295969587200; esdt_nonce := 0;
                   esdt_id := "ONE-f9954f" |} ];
     funcArgs := [ e_Str "TKN-1"; e_U (Finite 1) ] |}.

(** The contract call of [/buy TKN-1 10]. *)
Definition call_10 : CallSpec :=
  {| callee := "erd1qqqqqqqqqqqqqabc";
     gasLimit := 10000000;
     funcName := "swap";
     esdts := [ {| esdt_amount := Finite 10000000000000000000; esdt_nonce := 0;
                   esdt_id := "ONE-f9954f" |} ];
     funcArgs := [ e_Str "TKN-1"; e_U (Finite 1) ] |}.

End Sample.

(** ** Notions used by the statements *)

(** A callback that does nothing on [msg], whatever the match. *)
Definition silent (msg : Message) (env : Env) (cb : TextCallback) : Prop :=
  forall group, snd cb msg group env = ([], inr tt).

(** The [try] block of the order of each kind, and the label its
    [catch] writes on the console. *)
Definition order (command : CommandType) : Z -> CommandPayload -> M unit :=
  match command with buy => buy_order | sell => sell_order end.

Definition error_label (command : CommandType) : string :=
  match command with buy => "Error in buyToken:" | sell => "Error in sellToken:" end.

(** What an order sends and what it asks to receive. *)
Definition sent_token (command : CommandType) (payload : CommandPayload) : string :=
  match command with buy => base_token | sell => token payload end.

Definition received_token (command : CommandType) (payload : CommandPayload) : string :=
  match command with buy => token payload | sell => base_token end.

Definition computed_amount (command : CommandType) (payload : CommandPayload)
    (tokenBalance : TokenBalance) : number :=
  match command with
  | buy => amountToPay payload tokenBalance
  | sell => amountToSell payload tokenBalance
  end.

Definition is_queryContract (ev : Event) : bool :=
  match ev with queryContract _ _ => true | _ => false end.

Definition is_api_get (ev : Event) : bool :=
  match ev with api_get _ => true | _ => false end.

Definition is_callContract (ev : Event) : bool :=
  match ev with callContract _ => true | _ => false end.

Definition count (p : Event -> bool) (tr : list Event) : nat :=
  length (List.filter p tr).



(** The number [x] is the rational [q]. *)
Definition is_value (x : number) (q : Q) : Prop :=
  exists r, x = Finite r /\ (r == q)%Q.

(** The number [x] is not-a-number or at most zero. *)
Definition not_positive (x : number) : Prop :=
  match x with
  | NaN => True
  | Infinity negative => negative = true
  | Finite q => (q <= 0)%Q
  end.


(** [computeBuyAmount] as the specification words it: the explicit
    amount times [10^18], else the floor of 0.98 times the balance; an
    error when the result is not-a-number or at most zero. *)
Definition spec_computeBuyAmount (payload : CommandPayload)
    (walletBalance : TokenBalance) : Error + number :=
  let result :=
    match amount payload with
    | Some a => BigNumber.times a (pow10 18)
    | None => Math_floor (BigNumber.times (balance walletBalance) (Finite (98 # 100)))
    end in
  if BigNumber.isNaN result || BigNumber.isLessThanOrEqualTo0 result
  then inl {| message := "Invalid amount calculated" |}
  else inr result.

(** The message of the error that [findContractAddress] throws for an
    error with the message [m]. *)
Definition wrapped (tokenId m : string) : string :=
  "Failed to find contract for token " +:+ tokenId +:+ ": " +:+ m.


(** Opens an order into the case analysis on the answers of the
    services. *)
Ltac run_order :=
  unfold order, buy_order, sell_order, findContractAddress, scQuery, swapToken,
    loadWallet, api_get_tokens, check_amount, call, emit, throw, try_catch,
    mbind, M_bind, mret, M_ret.

(** ** Notions used by the further properties *)

(** Every character of [s] passes the test [p]. *)
Fixpoint every (p : ascii -> bool) (s : string) : bool :=
  match s with
  | EmptyString => true
  | String c s' => p c && every p s'
  end.

(** White space only. *)
Definition blank (s : string) : Prop := every JsString.is_space s = true.

(** No white space. *)
Definition spaceless (s : string) : Prop :=
  every (fun c => negb (JsString.is_space c)) s = true.

(** A word: not empty, no white space. *)
Definition word (s : string) : Prop := s <> EmptyString /\ spaceless s.

(** No line terminator. *)
Definition one_line (s : string) : Prop :=
  every (fun c => negb (JsString.is_line_terminator c)) s = true.

(** Puts [t] in front of the first piece of a split. *)
Definition prefix_head (t : string) (l : list string) : list string :=
  match l with
  | [] => [t]
  | h :: tl => (t +:+ h) :: tl
  end.

(** No slash. *)
Definition slashless (s : string) : Prop :=
  every (fun c => negb (Ascii.eqb c "/")) s = true.

(** No comma. *)
Definition no_comma (s : string) : Prop :=
  every (fun c => negb (Ascii.eqb c ",")) s = true.

(** The number [x] is a number and is not negative. *)
Definition nonnegative (x : number) : Prop :=
  match x with
  | NaN => False
  | Infinity negative => negative = false
  | Finite q => (0 <= q)%Q
  end.

Definition is_sendMessage (ev : Event) : bool :=
  match ev with sendMessage _ _ => true | _ => false end.

(** The contract call of an order. *)
Definition order_call (command : CommandType) (payload : CommandPayload)
    (contractAddress : string) (tokenBalance : TokenBalance) : CallSpec :=
  swap_call
    {| SwapParams.address := contractAddress;
       SwapParams.tokenToSend := sent_token command payload;
       SwapParams.amountToSend :=
         BigNumber.toNumber (computed_amount command payload tokenBalance);
       SwapParams.minAmountToReceive := of_Z 1;
       SwapParams.tokenToReceive := received_token command payload |}.

Definition processing_text (command : CommandType) (payload : CommandPayload) : string :=
  "🔍 Processing " +:+ CommandType_text command +:+ " order for token: " +:+
  token payload +:+ "...".

Definition is_newWalletFromFile (ev : Event) : bool :=
  match ev with newWalletFromFile => true | _ => false end.

(** The computation returns, it does not throw. *)
Definition returns {A : Type} (m : M A) (env : Env) : Prop :=
  exists a, outcome (m env) = inr a.

(** A chat message of the event goes to [chatId] and is not the refusal. *)
Definition to_chat (chatId : Z) (ev : Event) : Prop :=
  match ev with
  | sendMessage c content => c = chatId /\ content <> unauthorized_text
  | _ => True
  end.

(** A callback that, whatever the match, returns and sends its chat
    messages to the chat of [msg], none of them the refusal. *)
Definition well_behaved (msg : Message) (env : Env) (cb : TextCallback) : Prop :=
  forall group,
    Forall (to_chat (chat_id msg)) (trace (snd cb msg group env))
    /\ returns (snd cb msg group) env.

(** The expression of the [/buy] and of the [/sell] callback. *)
Definition command_pattern (command : CommandType) : string :=
  "/" +:+ CommandType_text command.




(** The value of a decimal numeral read after the value [acc]. *)
Fixpoint uint_value (acc : Z) (d : Decimal.uint) : Z :=
  match d with
  | Decimal.Nil => acc
  | Decimal.D0 d => uint_value (acc * 10 + 0) d
  | Decimal.D1 d => uint_value (acc * 10 + 1) d
  | Decimal.D2 d => uint_value (acc * 10 + 2) d
  | Decimal.D3 d => uint_value (acc * 10 + 3) d
  | Decimal.D4 d => uint_value (acc * 10 + 4) d
  | Decimal.D5 d => uint_value (acc * 10 + 5) d
  | Decimal.D6 d => uint_value (acc * 10 + 6) d
  | Decimal.D7 d => uint_value (acc * 10 + 7) d
  | Decimal.D8 d => uint_value (acc * 10 + 8) d
  | Decimal.D9 d => uint_value (acc * 10 + 9) d
  end.

Definition is_digit (c : ascii) : bool :=
  match decimal_digit c with Some _ => true | None => false end.

(** One piece of the configuration: an integer in decimal between
    blanks. *)
Definition entry_text (e : string * Z * string) : string :=
  e.1.1 +:+ Z_text e.1.2 +:+ e.2.

Definition entry_padded (e : string * Z * string) : Prop :=
  blank e.1.1 /\ blank e.2.

(** The integer of the piece is one that binary64 holds exactly. *)
Definition entry_safe (e : string * Z * string) : Prop := (Z.abs e.1.2 <= 2 ^ 53)%Z.

(** Half the least positive binary64 number, [2 ^ -1075]. *)
Definition tiny : Q := 1 # (2 ^ 1075).

(** More sample data: a configuration of two padded ids, and a
    registry that does not answer. *)
Definition sample_entries : list (string * Z * string) :=
  [ (EmptyString, 1%Z, EmptyString); (" ", 2%Z, EmptyString) ].

Definition sample_env_registry_down : Env :=
  {| queryContract_answer := inl {| message := "Request failed with status code 503" |};
     newWalletFromFile_answer := inr "erd1wallet";
     api_get_answer := fun _ => inr (Sample.tokens 1000);
     callContract_answer := fun _ => inr {| explorerUrl := None |};
     balance_text := fun _ _ => "0.00" |}.

(** The text starts, after white space and an optional sign, with a
    decimal digit: what [parseInt] needs to read a number. *)
Definition numeral_start (s : string) : bool :=
  match snd (read_sign (JsString.trimStart s)) with
  | String c _ => is_digit c
  | EmptyString => false
  end.

(** Reduces the fields of a payload that is written out. *)
Ltac payload_fields := cbn [token amount] in *.

(** * Properties *)

(** ** Running the monad *)

Lemma bind_run {A B : Type} (m : M A) (k : A -> M B) (env : Env) :
  (m ≫= k) env =
  match m env with
  | (tr, inl e) => (tr, inl e)
  | (tr, inr a) => let '(tr', r) := k a env in (tr ++ tr', r)
  end.
Proof. reflexivity. Qed.

Lemma try_catch_run {A : Type} (m : M A) (handler : Error -> M A) (env : Env) :
  try_catch m handler env =
  match m env with
  | (tr, inl e) => let '(tr', r) := handler e env in (tr ++ tr', r)
  | (tr, inr a) => (tr, inr a)
  end.
Proof. reflexivity. Qed.

(** ** Authorization *)

Lemma isAuthorized_run (this : TradingBot) (chatId : Z) (env : Env) :
  isAuthorized this chatId env =
  if (size (authorizedChatIds this) =? 0)%nat
  then ([console_warn warning_text], inr true)
  else ([], inr (bool_decide (chatId ∈ authorizedChatIds this))).
Proof.
  unfold isAuthorized.
  destruct (size (authorizedChatIds this) =? 0)%nat; reflexivity.
Qed.

Lemma size_zero_empty (X : gset Z) : size X = 0%nat <-> X = ∅.
Proof.
  split.
  - intros E. apply leibniz_equiv. by apply size_empty_inv.
  - intros ->. apply size_empty.
Qed.

Lemma isAuthorized_denied (this : TradingBot) (chatId : Z) (env : Env) :
  authorizedChatIds this ≠ ∅ ->
  chatId ∉ authorizedChatIds this ->
  isAuthorized this chatId env = ([], inr false).
Proof.
  intros Hne Hnot. rewrite isAuthorized_run.
  destruct (Nat.eqb_spec (size (authorizedChatIds this)) 0) as [E|E].
  - by apply size_zero_empty in E.
  - by rewrite bool_decide_eq_false_2.
Qed.

Lemma isAuthorized_open (this : TradingBot) (chatId : Z) (env : Env) :
  authorizedChatIds this = ∅ ->
  isAuthorized this chatId env = ([console_warn warning_text], inr true).
Proof.
  intros E. rewrite isAuthorized_run. apply size_zero_empty in E. by rewrite E.
Qed.

(** C2: [isAuthorized] answers true exactly when the set of authorized
    chats is empty or holds the chat id, and false otherwise; it writes
    the warning on every check made while the set is empty, and nothing
    else. *)
Theorem isAuthorized_spec (this : TradingBot) (chatId : Z) (env : Env) :
  (outcome (isAuthorized this chatId env) = inr true <->
     authorizedChatIds this = ∅ \/ chatId ∈ authorizedChatIds this)
  /\ (outcome (isAuthorized this chatId env) = inr false <->
     ~ (authorizedChatIds this = ∅ \/ chatId ∈ authorizedChatIds this))
  /\ trace (isAuthorized this chatId env) =
      if decide (authorizedChatIds this = ∅) then [console_warn warning_text] else [].
Proof.
  rewrite isAuthorized_run.
  destruct (Nat.eqb_spec (size (authorizedChatIds this)) 0) as [E|E].
  - apply size_zero_empty in E.
    rewrite decide_True by done. cbn. split_and!; [naive_solver | | done].
    split; [discriminate | intros []; by left].
  - assert (authorizedChatIds this ≠ ∅) as N by (by rewrite <- size_zero_empty).
    rewrite decide_False by done. cbn. split_and!; [| | done].
    + split.
      * intros [= H]. right. by apply bool_decide_eq_true in H.
      * intros [?|H]; [done|]. f_equal. by apply bool_decide_eq_true.
    + split.
      * intros [= H]. apply bool_decide_eq_false in H. intros [?|?]; done.
      * intros H. f_equal. apply bool_decide_eq_false. intros ?. apply H. by right.
Qed.

(** ** Unauthorized chats *)

Section Denied.
Variables (this : TradingBot) (msg : Message) (env : Env).
Hypothesis nonempty : authorizedChatIds this ≠ ∅.
Hypothesis stranger : chat_id msg ∉ authorizedChatIds this.

Lemma message_listener_denied :
  message_listener this msg env =
  if match text msg with Some s => JsString.startsWith s "/" | None => false end
  then ([sendMessage (chat_id msg) unauthorized_text], inr tt)
  else ([], inr tt).
Proof.
  unfold message_listener. rewrite bind_run, isAuthorized_denied by done.
  cbn. destruct (text msg) as [s|]; [destruct (JsString.startsWith s "/")|]; reflexivity.
Qed.

Lemma callbacks_denied :
  Forall (silent msg env) (textRegexpCallbacks (setupCommandHandlers this)).
Proof.
  repeat constructor; intros group; cbn;
    unfold help_callback, order_callback, start_callback, address_callback;
    rewrite bind_run, isAuthorized_denied by done; reflexivity.
Qed.

Lemma run_callbacks_silent (cbs : list TextCallback) :
  Forall (silent msg env) cbs -> forall s, run_callbacks cbs msg s env = ([], inr tt).
Proof.
  induction 1 as [|[regexp callback] cbs Hcb _ IH]; intros s; [reflexivity|].
  unfold silent in Hcb. cbn in Hcb.
  cbn [run_callbacks]. rewrite bind_run.
  destruct (RegExp_exec regexp s) as [group|].
  - rewrite (Hcb group), IH. reflexivity.
  - cbn. rewrite IH. reflexivity.
Qed.

Lemma processUpdate_denied :
  processUpdate (setupCommandHandlers this) msg env =
  if match text msg with Some s => JsString.startsWith s "/" | None => false end
  then ([sendMessage (chat_id msg) unauthorized_text], inr tt)
  else ([], inr tt).
Proof.
  pose proof (run_callbacks_silent _ callbacks_denied) as Hcbs.
  unfold processUpdate.
  change (message_listeners (setupCommandHandlers this)) with [message_listener this].
  revert Hcbs. generalize (textRegexpCallbacks (setupCommandHandlers this)).
  intros cbs Hcbs.
  rewrite bind_run. cbn [run_listeners]. rewrite bind_run, message_listener_denied.
  destruct (text msg) as [s|]; cbn.
  - destruct (JsString.startsWith s "/"); cbn;
      (destruct (JsString.truthy s); [rewrite Hcbs|]; reflexivity).
  - reflexivity.
Qed.

End Denied.

(** ** Unauthorized commands *)

Lemma sample_nonempty : authorizedChatIds (fst Sample.app) ≠ ∅.
Proof. rewrite <- size_zero_empty. vm_compute. discriminate. Qed.

Lemma sample_stranger : 42%Z ∉ authorizedChatIds (fst Sample.app).
Proof. apply (bool_decide_eq_false_1 (42%Z ∈ authorizedChatIds (fst Sample.app))). vm_compute. reflexivity. Qed.

(** C1: a chat that is not in a non-empty set of authorized chats gets,
    for a text that starts with a slash, the unauthorized message and
    nothing else; and whatever it sends, no event other than that
    message happens, so no contract query, wallet load, balance fetch or
    contract call. *)
Theorem unauthorized_command_rejected (this : TradingBot) (msg : Message) (env : Env) :
  authorizedChatIds this ≠ ∅ ->
  chat_id msg ∉ authorizedChatIds this ->
  (forall s, text msg = Some s -> JsString.startsWith s "/" = true ->
     processUpdate (setupCommandHandlers this) msg env =
     ([sendMessage (chat_id msg) unauthorized_text], inr tt))
  /\ (forall ev, In ev (trace (processUpdate (setupCommandHandlers this) msg env)) ->
        ev = sendMessage (chat_id msg) unauthorized_text).
Proof.
  intros Hne Hnot. rewrite processUpdate_denied by done. split.
  - intros s -> ->. reflexivity.
  - intros ev.
    destruct (match text msg with Some s => JsString.startsWith s "/" | None => false end);
      cbn; intros H.
    + destruct H as [<-|[]]. reflexivity.
    + destruct H.
Qed.

Lemma unauthorized_command_rejected_witness :
  processUpdate (setupCommandHandlers (fst Sample.app)) (Sample.msg 42 "/buy TKN-1")
    (Sample.env 1000)
  = ([sendMessage 42 unauthorized_text], inr tt).
Proof.
  exact (proj1 (unauthorized_command_rejected (fst Sample.app)
                  (Sample.msg 42 "/buy TKN-1") (Sample.env 1000)
                  sample_nonempty sample_stranger)
           "/buy TKN-1" eq_refl eq_refl).
Defined.

(** ** The chat id command *)

(** C8, the code at the failing inputs: the constructor registers the
    command handlers only, so [/chatid] from a chat outside the set gets
    the unauthorized message, from an authorized chat it gets no reply,
    and in neither case the chat id is echoed; had the constructor
    called [setupAdditionalCommands], the echo would follow. *)
Theorem chatid_not_registered (env : Env) :
  processUpdate (snd Sample.app) (Sample.msg 42 "/chatid") env
    = ([sendMessage 42 unauthorized_text], inr tt)
  /\ processUpdate (snd Sample.app) (Sample.msg 1 "/chatid") env = ([], inr tt)
  /\ (forall TELEGRAM_CHATS_IDS,
        map fst (textRegexpCallbacks (snd (constructor TELEGRAM_CHATS_IDS)))
        = [RegExp_literal "/help"; RegExp_capture "/buy"; RegExp_capture "/sell";
           RegExp_literal "/start"; RegExp_literal "/address"])
  /\ processUpdate (setupAdditionalCommands (snd Sample.app)) (Sample.msg 1 "/chatid") env
     = ([sendMessage 1 (chatid_text 1)], inr tt).
Proof.
  split_and!.
  - vm_compute. reflexivity.
  - vm_compute. reflexivity.
  - intros cfg. reflexivity.
  - vm_compute. reflexivity.
Qed.

(** ** The set of authorized chats *)

Lemma split_char_nonempty (sep : ascii) (s : string) : JsString.split_char sep s <> [].
Proof.
  destruct s as [|c s]; cbn; [discriminate|].
  destruct (Ascii.eqb c sep); [discriminate|].
  destruct (JsString.split_char sep s); discriminate.
Qed.

Lemma join_cons_head (sep : string) (c : ascii) (l : list string) :
  l <> [] -> join sep (JsString.cons_head c l) = String c (join sep l).
Proof. destruct l as [|t [|u ts]]; [done | reflexivity | reflexivity]. Qed.

Lemma join_cons (sep x : string) (l : list string) :
  l <> [] -> join sep (x :: l) = x +:+ sep +:+ join sep l.
Proof. destruct l; [done | reflexivity]. Qed.

(** The pieces of a split, put together with the separator, are the
    text that was split. *)
Lemma split_char_join (sep : ascii) (s : string) :
  join (String sep EmptyString) (JsString.split_char sep s) = s.
Proof.
  induction s as [|c s IH]; [reflexivity|].
  cbn [JsString.split_char]. destruct (Ascii.eqb_spec c sep) as [->|_].
  - rewrite join_cons by apply split_char_nonempty. by rewrite IH.
  - rewrite join_cons_head by apply split_char_nonempty. by rewrite IH.
Qed.

(** No piece of a split holds the separator. *)
Lemma split_char_pieces (sep : ascii) (s entry : string) :
  In entry (JsString.split_char sep s) -> ~ In sep (list_ascii_of_string entry).
Proof.
  revert entry. induction s as [|c s IH]; intros entry; cbn [JsString.split_char].
  - intros [<-|[]]. cbn. tauto.
  - destruct (Ascii.eqb_spec c sep) as [->|Hc].
    + intros [<-|H]; [cbn; tauto | by apply IH].
    + destruct (JsString.split_char sep s) as [|t ts]; cbn.
      * intros [<-|[]]. cbn. intros [?|[]]. done.
      * intros [<-|H].
        -- cbn. intros [?|H]; [done|]. revert H. apply IH. by left.
        -- apply IH. by right.
Qed.

Lemma elem_of_Set_of (z : Z) (ids : list (option Z)) :
  z ∈ Set_of ids <-> In (Some z) ids.
Proof.
  unfold Set_of. rewrite elem_of_list_to_set, list_elem_of_omap. split.
  - intros (x & Hx & E). unfold id in E. subst x. by apply list_elem_of_In.
  - intros H. exists (Some z). split; [by apply list_elem_of_In | done].
Qed.

Lemma parse_chat_ids_In (z : Z) (chatIdsStr : string) :
  In (Some z) (parse_chat_ids chatIdsStr) <->
  exists entry, In entry (JsString.split_char "," chatIdsStr)
                /\ parseInt (JsString.trim entry) = Some z.
Proof.
  unfold parse_chat_ids. rewrite filter_In, in_map_iff. split.
  - intros [(entry & E & Hin) _]. by exists entry.
  - intros (entry & Hin & E). split; [by exists entry | done].
Qed.

Lemma constructor_chatIdsStr (TELEGRAM_CHATS_IDS : option string) :
  fst (constructor TELEGRAM_CHATS_IDS) =
  {| authorizedChatIds := Set_of (parse_chat_ids (default EmptyString TELEGRAM_CHATS_IDS)) |}.
Proof. destruct TELEGRAM_CHATS_IDS as [[|c s]|]; reflexivity. Qed.

Lemma run_keeps (app : TradingBot * TelegramBot) (msgs : list Message) (env : Env) :
  fst (run app msgs env) = app.
Proof.
  induction msgs as [|msg msgs IH]; [reflexivity|].
  cbn [run]. destruct (run app msgs env) as [app' tr']. exact IH.
Qed.

(** ** Resolution of the trading contract *)

Lemma find_first_match (tokenId : string) (pre post : list BondingMetadata)
    (c : BondingMetadata) :
  first_token_id c = tokenId ->
  (forall x, In x pre -> first_token_id x <> tokenId) ->
  List.find (matches tokenId) (pre ++ c :: post) = Some c.
Proof.
  intros Hc Hpre. induction pre as [|x pre IH]; cbn.
  - unfold matches. rewrite Hc, String.eqb_refl. reflexivity.
  - unfold matches at 1.
    destruct (String.eqb_spec (first_token_id x) tokenId) as [E|_].
    + exfalso. apply (Hpre x); [by left | exact E].
    + apply IH. intros y Hy. apply Hpre. by right.
Qed.

Lemma find_no_match (tokenId : string) (data : list BondingMetadata) :
  (forall x, In x data -> first_token_id x <> tokenId) ->
  List.find (matches tokenId) data = None.
Proof.
  intros Hdata. induction data as [|x data IH]; cbn; [reflexivity|].
  unfold matches at 1.
  destruct (String.eqb_spec (first_token_id x) tokenId) as [E|_].
  - exfalso. apply (Hdata x); [by left | exact E].
  - apply IH. intros y Hy. apply Hdata. by right.
Qed.

Lemma findContractAddress_run (tokenId : string) (data : list BondingMetadata) (env : Env) :
  queryContract_answer env = inr (Some data) ->
  findContractAddress tokenId env =
  match List.find (matches tokenId) data with
  | Some c => ([queryContract registry "getAllBondingMetadata"], inr (address c))
  | None =>
      ([queryContract registry "getAllBondingMetadata";
        console_error "Error finding contract address:"
          ("No contract found for token " +:+ tokenId)],
       inl {| message := "Failed to find contract for token " +:+ tokenId +:+ ": " +:+
                         ("No contract found for token " +:+ tokenId) |})
  end.
Proof.
  intros Hq. unfold findContractAddress, scQuery, call.
  rewrite try_catch_run, bind_run, try_catch_run, Hq.
  destruct (List.find (matches tokenId) data); reflexivity.
Qed.

(** C5: over the list that the remote query returns, [findContractAddress]
    returns the address of the first entry whose first token id is the
    requested one, whatever follows it, and throws, with the message of
    the missing contract, when no entry has it. *)
Theorem findContractAddress_first_match (tokenId : string)
    (data : list BondingMetadata) (env : Env) :
  queryContract_answer env = inr (Some data) ->
  (forall pre c post,
      data = pre ++ c :: post ->
      first_token_id c = tokenId ->
      (forall x, In x pre -> first_token_id x <> tokenId) ->
      outcome (findContractAddress tokenId env) = inr (address c))
  /\ ((forall x, In x data -> first_token_id x <> tokenId) ->
      outcome (findContractAddress tokenId env) =
      inl {| message := "Failed to find contract for token " +:+ tokenId +:+
                        ": No contract found for token " +:+ tokenId |}).
Proof.
  intros Hq. rewrite (findContractAddress_run tokenId data env Hq). split.
  - intros pre c post -> Hc Hpre. by rewrite find_first_match.
  - intros Hdata. by rewrite find_no_match.
Qed.

Lemma findContractAddress_first_match_witness :
  outcome (findContractAddress "TKN-1" (Sample.env 1000)) = inr "erd1qqqqqqqqqqqqqabc"
  /\ outcome (findContractAddress "ZZZ-9" (Sample.env 1000)) =
     inl {| message :=
       "Failed to find contract for token ZZZ-9: No contract found for token ZZZ-9" |}.
Proof.
  split.
  - apply (proj1 (findContractAddress_first_match "TKN-1" Sample.metadata
                    (Sample.env 1000) eq_refl)
             [ {| first_token_id := "AAA-1"; address := "erd1qqqqqqqqqqqqqaaa" |} ]
             {| first_token_id := "TKN-1"; address := "erd1qqqqqqqqqqqqqabc" |}
             [ {| first_token_id := "TKN-1"; address := "erd1qqqqqqqqqqqqqxyz" |} ]
             eq_refl eq_refl).
    intros x [<-|[]]. discriminate.
  - apply (proj2 (findContractAddress_first_match "ZZZ-9" Sample.metadata
                    (Sample.env 1000) eq_refl)).
    intros x [<-|[<-|[<-|[]]]]; discriminate.
Defined.

(** ** Validation of the arguments *)





(** C3, the code at the inputs of the claim: an argument text of blanks
    only is not refused, its empty token goes to [handleCommand], which
    starts a buy order and queries the contract; so it is for a command
    followed by a blank and a line break; the empty text and the amount
    that is no number are refused, and [TOKEN-1 100] gives the payload
    of the claim. *)
Theorem blank_arguments_dispatched :
  validate (Some "   ") = Valid "" None
  /\ trace (processUpdate (snd Sample.app) (Sample.msg 1 "/buy   ") (Sample.env 1000))
     = [ sendMessage 1 "🔍 Processing buy order for token: ...";
         queryContract registry "getAllBondingMetadata";
         console_error "Error finding contract address:" "No contract found for token ";
         console_error "Error in buyToken:"
           "Failed to find contract for token : No contract found for token ";
         sendMessage 1
           "❌ Transaction failed: Failed to find contract for token : No contract found for token ";
         sendMessage 1
           "Error processing buy order: Failed to find contract for token : No contract found for token " ]
  /\ JsString.exec_group "/buy" ("/buy " +:+ LF +:+ "TKN-1") = Some " "
  /\ validate (Some " ") = Valid "" None
  /\ validate (Some "") = UsageError
  /\ validate (Some "TOKEN-1 abc") = InvalidAmount
  /\ validate (Some "TOKEN-1 100") = Valid "TOKEN-1" (Some (Finite 100)).
Proof. split_and!; vm_compute; reflexivity. Qed.




(** ** Rounding to binary64 *)

Lemma round_half_even_unit (n : Z) : round_half_even n 1 = n.
Proof.
  unfold round_half_even. rewrite Z.mod_1_r, Z.div_1_r. reflexivity.
Qed.

Lemma exponent_integer (z : Z) : (0 < z)%Z -> exponent z 1 = Z.log2 z.
Proof.
  intros Hz. unfold exponent. change (Z.log2 1) with 0%Z. rewrite Z.sub_0_r.
  pose proof (Z.log2_nonneg z) as Hl. pose proof (Z.log2_spec z Hz) as [Hlo _].
  rewrite (Z.max_r 0 (Z.log2 z)) by lia. rewrite (Z.max_l 0 (- Z.log2 z)) by lia.
  rewrite Z.pow_0_r, Z.mul_1_r, Z.mul_1_l.
  destruct (Z.leb_spec (2 ^ Z.log2 z) z); [reflexivity | lia].
Qed.

Lemma scaled_integer (z k : Z) :
  (0 <= k)%Z -> scaled (z * 2 ^ k) (- k) = inject_Z z.
Proof.
  intros Hk. unfold scaled. rewrite Z.opp_involutive.
  rewrite (Z.max_l 0 (- k)) by lia. rewrite (Z.max_r 0 k) by lia.
  rewrite Z.pow_0_r, Z.mul_1_r.
  assert (0 < 2 ^ k)%Z as Hp by (apply Z.pow_pos_nonneg; lia).
  rewrite (Qred_complete _ (inject_Z z)).
  - apply Qcanon.Qred_identity. cbn. apply Z.gcd_1_r.
  - unfold Qeq, inject_Z. cbn [Qnum Qden]. rewrite Z2Pos.id by exact Hp. lia.
Qed.

Lemma nearest_integer (z : Z) :
  (0 < z < 2 ^ 53)%Z -> nearest z 1 = inject_Z z.
Proof.
  intros [Hz Hlt]. unfold nearest, last_place, significand.
  rewrite exponent_integer by exact Hz.
  pose proof (Z.log2_nonneg z) as Hl.
  assert (Z.log2 z < 53)%Z as Hl' by (apply Z.log2_lt_pow2; [exact Hz | exact Hlt]).
  rewrite (Z.max_l (Z.log2 z) (-1022)) by lia.
  set (k := (52 - Z.log2 z)%Z).
  replace (Z.log2 z - 52)%Z with (- k)%Z by (unfold k; lia).
  rewrite Z.opp_involutive.
  rewrite (Z.max_r 0 k) by (unfold k; lia). rewrite (Z.max_l 0 (- k)) by (unfold k; lia).
  rewrite Z.pow_0_r, Z.mul_1_l, round_half_even_unit.
  apply scaled_integer. unfold k; lia.
Qed.

Lemma below_overflow (z : Z) :
  (z <= 2 ^ 53)%Z -> Qle_bool (inject_Z (2 ^ 1024)) (inject_Z z) = false.
Proof.
  intros Hz. destruct (Qle_bool (inject_Z (2 ^ 1024)) (inject_Z z)) eqn:E; [|reflexivity].
  apply Qle_bool_iff in E. rewrite <- Zle_Qle in E.
  assert (2 ^ 53 < 2 ^ 1024)%Z by (apply Z.pow_lt_mono_r; lia). lia.
Qed.

(** An integer of magnitude at most [2 ^ 53] is a binary64 number. *)
Lemma binary64_integer (z : Z) :
  (Z.abs z <= 2 ^ 53)%Z -> binary64 (inject_Z z) = Finite (inject_Z z).
Proof.
  intros Hz. destruct (Z.eq_dec (Z.abs z) (2 ^ 53)%Z) as [E|E].
  - destruct (Z.abs_eq_or_opp z) as [H|H]; rewrite H in E.
    + subst z. vm_compute. reflexivity.
    + assert (z = (- 2 ^ 53)%Z) as -> by lia. vm_compute. reflexivity.
  - unfold binary64. destruct z as [|p|p]; cbn [inject_Z Qnum Qden].
    + reflexivity.
    + rewrite nearest_integer by lia. rewrite below_overflow by lia. reflexivity.
    + rewrite nearest_integer by lia. rewrite below_overflow by lia. reflexivity.
Qed.

Lemma integer_number_exact (z : Z) :
  (Z.abs z <= 2 ^ 53)%Z -> integer_number z = z.
Proof.
  intros Hz. unfold integer_number. rewrite binary64_integer by exact Hz.
  apply Qfloor_Z.
Qed.

Lemma printed_integer (z : Z) :
  (Z.abs z <= 2 ^ 53)%Z -> printed (inject_Z z) = inject_Z z.
Proof.
  intros Hz. unfold printed, safe_integer. cbn [inject_Z Qnum Qden].
  rewrite Pos.eqb_refl. cbn [andb].
  destruct (Z.leb_spec (Z.abs z) (2 ^ 53)); [reflexivity | lia].
Qed.

(** Up to [10 ^ 22] a power of ten is a binary64 number, and as a
    [BigNumber] it is that power. *)
Lemma BigNumber_pow10 (d : nat) :
  (d <= 22)%nat -> BigNumber.BigNumber (pow10 d) = of_Z (10 ^ Z.of_nat d).
Proof.
  intros Hd. do 23 (destruct d as [|d]; [vm_compute; reflexivity|]). lia.
Qed.


Lemma BigNumber_0_98 : BigNumber.BigNumber literal_0_98 = Finite (49 # 50).
Proof. vm_compute. reflexivity. Qed.

Lemma toNumber_one : BigNumber.toNumber (BigNumber.BigNumber (of_Z 1)) = of_Z 1.
Proof. vm_compute. reflexivity. Qed.

Lemma round_half_even_nonneg (n d : Z) :
  (0 <= n)%Z -> (0 < d)%Z -> (0 <= round_half_even n d)%Z.
Proof.
  intros Hn Hd. unfold round_half_even.
  assert (0 <= n / d)%Z by (apply Z.div_pos; lia).
  destruct (2 * (n mod d) ?= d)%Z; [destruct (Z.even (n / d))| |]; lia.
Qed.

Lemma nearest_nonneg (n d : positive) : (0 <= nearest (Zpos n) (Zpos d))%Q.
Proof.
  unfold nearest, scaled. rewrite Qred_correct.
  unfold Qle. cbn [Qnum Qden]. rewrite Z.mul_0_l, Z.mul_1_r.
  apply Z.mul_nonneg_nonneg.
  - apply round_half_even_nonneg.
    + apply Z.mul_nonneg_nonneg; [lia|]. apply Z.pow_nonneg. lia.
    + apply Z.mul_pos_pos; [lia|]. apply Z.pow_pos_nonneg; lia.
  - apply Z.pow_nonneg. lia.
Qed.

(** Rounding keeps the sign: a positive rational gives a number that is
    not negative. *)
Lemma binary64_nonnegative (q : Q) : (0 < q)%Q -> nonnegative (binary64 q).
Proof.
  intros Hq. unfold binary64. destruct q as [[|n|n] d]; cbn [Qnum Qden].
  - exfalso. revert Hq. unfold Qlt. cbn. lia.
  - destruct (Qle_bool _ _); cbn; [reflexivity | apply nearest_nonneg].
  - exfalso. revert Hq. unfold Qlt. cbn. lia.
Qed.

Lemma toNumber_nonnegative (x : number) :
  ~ not_positive x -> nonnegative (Math_floor (BigNumber.toNumber x)).
Proof.
  destruct x as [|negative|q]; cbn [not_positive BigNumber.toNumber].
  - tauto.
  - cbn. by destruct negative.
  - intros H. apply Qnot_le_lt in H. apply binary64_nonnegative in H.
    destruct (binary64 q) as [|negative|r]; cbn in *; [done | done |].
    change 0%Q with (inject_Z 0). rewrite <- Zle_Qle.
    change 0%Z with (Qfloor (inject_Z 0)) at 1. by apply Qfloor_resp_le.
Qed.

Lemma round_half_even_spec (n d : Z) :
  (0 < d)%Z ->
  (2 * (round_half_even n d * d) <= 2 * n + d
   /\ 2 * n <= 2 * (round_half_even n d * d) + d)%Z.
Proof.
  intros Hd. unfold round_half_even.
  pose proof (Z.div_mod n d ltac:(lia)) as E.
  pose proof (Z.mod_pos_bound n d Hd) as [H0 H1].
  destruct (Z.compare_spec (2 * (n mod d)) d) as [H|H|H];
    [destruct (Z.even (n / d))| |]; lia.
Qed.

(** [2 ^ exponent n d <= n / d] *)
Lemma exponent_spec (n d : Z) :
  (0 < n)%Z -> (0 < d)%Z ->
  (d * 2 ^ Z.max 0 (exponent n d) <= n * 2 ^ Z.max 0 (- exponent n d))%Z.
Proof.
  intros Hn Hd. unfold exponent.
  destruct (Z.leb_spec (d * 2 ^ Z.max 0 (Z.log2 n - Z.log2 d))
              (n * 2 ^ Z.max 0 (- (Z.log2 n - Z.log2 d)))) as [H|H]; [exact H|].
  pose proof (Z.log2_spec n Hn) as [Hn1 Hn2].
  pose proof (Z.log2_spec d Hd) as [Hd1 Hd2].
  pose proof (Z.log2_nonneg n) as Ln. pose proof (Z.log2_nonneg d) as Ld.
  rewrite <- Z.add_1_r in Hd2.
  destruct (Z.le_gt_cases (Z.log2 n - Z.log2 d) 0) as [Hle|Hgt].
  - rewrite (Z.max_l 0 (Z.log2 n - Z.log2 d - 1)) by lia.
    rewrite (Z.max_r 0 (- (Z.log2 n - Z.log2 d - 1))) by lia.
    rewrite Z.pow_0_r, Z.mul_1_r.
    replace (Z.log2 d + 1)%Z with (Z.log2 n + - (Z.log2 n - Z.log2 d - 1))%Z in Hd2 by lia.
    rewrite Z.pow_add_r in Hd2 by lia.
    assert (0 < 2 ^ (- (Z.log2 n - Z.log2 d - 1)))%Z by (apply Z.pow_pos_nonneg; lia).
    nia.
  - rewrite (Z.max_r 0 (Z.log2 n - Z.log2 d - 1)) by lia.
    rewrite (Z.max_l 0 (- (Z.log2 n - Z.log2 d - 1))) by lia.
    rewrite Z.pow_0_r, Z.mul_1_r.
    replace (Z.log2 n) with (Z.log2 d + 1 + (Z.log2 n - Z.log2 d - 1))%Z in Hn1 at 1 by lia.
    rewrite Z.pow_add_r in Hn1 by lia.
    assert (0 < 2 ^ (Z.log2 n - Z.log2 d - 1))%Z by (apply Z.pow_pos_nonneg; lia).
    nia.
Qed.

(** Half a unit in the last place of the binary64 numbers around
    [n / d] is at most [(n / d) / 2 ^ 53], or is [2 ^ -1075]. *)
Lemma last_place_spec (n d : Z) :
  (0 < n)%Z -> (0 < d)%Z ->
  let p := last_place n d in
  (d * 2 ^ Z.max 0 p * 2 ^ 52 <= n * 2 ^ Z.max 0 (- p))%Z
  \/ p = (-1074)%Z.
Proof.
  intros Hn Hd p. subst p. unfold last_place.
  pose proof (exponent_spec n d Hn Hd) as He. set (e := exponent n d) in *.
  destruct (Z.le_gt_cases (-1022) e) as [Hle|Hgt]; [left | right; lia].
  rewrite (Z.max_l e (-1022)) by lia.
  set (E := (2 ^ Z.max 0 e)%Z) in *. set (F := (2 ^ Z.max 0 (- e))%Z) in *.
  set (P := (2 ^ Z.max 0 (e - 52))%Z). set (A := (2 ^ Z.max 0 (- (e - 52)))%Z).
  assert (0 < F)%Z as HF by (apply Z.pow_pos_nonneg; lia).
  assert (P * 2 ^ 52 * F = A * E)%Z as Hrel.
  { unfold P, A, E, F. rewrite <- !Z.pow_add_r by lia. f_equal. lia. }
  apply (Z.mul_le_mono_pos_r _ _ F HF).
  replace (d * P * 2 ^ 52 * F)%Z with (d * (P * 2 ^ 52 * F))%Z by ring.
  rewrite Hrel. replace (d * (A * E))%Z with (A * (d * E))%Z by ring.
  replace (n * A * F)%Z with (A * (n * F))%Z by ring.
  apply Z.mul_le_mono_nonneg_l; [|exact He]. apply Z.pow_nonneg. lia.
Qed.


Lemma nearest_error (n d : positive) :
  (nearest (Zpos n) (Zpos d) <= (Zpos n # d) + (Zpos n # d) * (1 # 2 ^ 53) + tiny
   /\ (Zpos n # d) <= nearest (Zpos n) (Zpos d) + (Zpos n # d) * (1 # 2 ^ 53) + tiny)%Q.
Proof.
  unfold nearest, significand, scaled.
  pose proof (last_place_spec (Zpos n) (Zpos d) ltac:(lia) ltac:(lia)) as Hp.
  cbv zeta in Hp. set (p := last_place (Zpos n) (Zpos d)) in *.
  set (P := (2 ^ Z.max 0 p)%Z) in *. set (A := (2 ^ Z.max 0 (- p))%Z) in *.
  assert (0 < P)%Z as HP by (apply Z.pow_pos_nonneg; lia).
  assert (0 < A)%Z as HA by (apply Z.pow_pos_nonneg; lia).
  pose proof (round_half_even_spec (Zpos n * A) (Zpos d * P) ltac:(lia)) as [Hu Hl].
  set (m := round_half_even (Zpos n * A) (Zpos d * P)) in *.
  rewrite Qred_correct.
  assert (((m * P) # Z.to_pos A) <= (Zpos n # d) + (P # (2 * Z.to_pos A))
          /\ (Zpos n # d) <= ((m * P) # Z.to_pos A) + (P # (2 * Z.to_pos A)))%Q as [Hv1 Hv2].
  { unfold Qle, Qplus. cbn [Qnum Qden].
    rewrite !Pos2Z.inj_mul, !Z2Pos.id by exact HA. split; nia. }
  assert ((P # (2 * Z.to_pos A)) <= (Zpos n # d) * (1 # 2 ^ 53) + tiny)%Q as Hh.
  { destruct Hp as [Hp|Hp].
    - apply Qle_trans with ((Zpos n # d) * (1 # 2 ^ 53))%Q.
      + unfold Qle, Qmult. cbn [Qnum Qden].
        rewrite !Pos2Z.inj_mul, !Z2Pos.id by exact HA.
        change (Zpos (2 ^ 53)) with (2 * 2 ^ 52)%Z. nia.
      + rewrite <- (Qplus_0_r ((Zpos n # d) * (1 # 2 ^ 53))) at 1.
        apply Qplus_le_r. discriminate.
    - assert (P = 1%Z) as -> by (unfold P; rewrite Hp; reflexivity).
      assert (A = (2 ^ 1074)%Z) as -> by (unfold A; rewrite Hp; reflexivity).
      rewrite <- (Qplus_0_l (1 # _)).
      apply Qplus_le_compat; [|unfold tiny; apply Qle_refl].
      apply Qmult_le_0_compat; discriminate. }
  split.
  - eapply Qle_trans; [exact Hv1|]. rewrite <- Qplus_assoc. apply Qplus_le_r. exact Hh.
  - eapply Qle_trans; [exact Hv2|]. rewrite <- Qplus_assoc. apply Qplus_le_r. exact Hh.
Qed.

Lemma tiny_bounds : (0 <= tiny /\ tiny <= 1 # 100000000000000000000)%Q.
Proof. split; vm_compute; discriminate. Qed.

(** ** The amount of an order *)

Lemma truthy_Finite (q : Q) : ~ (q == 0)%Q -> truthy (Finite q) = true.
Proof.
  intros Hq. cbn. destruct (Qeq_bool q 0) eqn:E; [|reflexivity].
  apply Qeq_bool_iff in E. contradiction.
Qed.

Lemma times_Finite (p q : Q) : is_value (BigNumber.times (Finite p) (Finite q)) (p * q).
Proof. exists (Qred (p * q)). split; [reflexivity | apply Qred_correct]. Qed.

Lemma check_amount_run (x : number) (env : Env) :
  check_amount x env =
  if BigNumber.isNaN x || BigNumber.isLessThanOrEqualTo0 x
  then ([], inl {| message := "Invalid amount calculated" |})
  else ([], inr tt).
Proof.
  unfold check_amount.
  destruct (BigNumber.isNaN x || BigNumber.isLessThanOrEqualTo0 x); reflexivity.
Qed.

Lemma invalid_not_positive (x : number) :
  BigNumber.isNaN x || BigNumber.isLessThanOrEqualTo0 x = true <-> not_positive x.
Proof.
  destruct x as [|negative|q]; cbn.
  - done.
  - done.
  - apply Qle_bool_iff.
Qed.

Lemma valid_guard (x : number) :
  ~ not_positive x -> BigNumber.isNaN x || BigNumber.isLessThanOrEqualTo0 x = false.
Proof.
  rewrite <- invalid_not_positive.
  destruct (BigNumber.isNaN x || BigNumber.isLessThanOrEqualTo0 x); [tauto|reflexivity].
Qed.

(** The amount computed from an amount that is set and is not zero:
    the decimal the amount prints as, times the power of ten. *)
Lemma amount_set (command : CommandType) (t : string) (a : Q) (tokenBalance : TokenBalance) :
  ~ (a == 0)%Q ->
  computed_amount command {| token := t; amount := Some (Finite a) |} tokenBalance
  = BigNumber.times (Finite (printed a))
      (BigNumber.BigNumber
         (pow10 match command with buy => 18 | sell => decimals tokenBalance end)).
Proof.
  intros Ha. destruct command; cbn [computed_amount]; unfold amountToPay, amountToSell;
    cbn [amount]; rewrite (truthy_Finite a Ha); reflexivity.
Qed.

(** The amount computed when no amount is given. *)
Lemma amount_unset (command : CommandType) (t : string) (tokenBalance : TokenBalance) :
  computed_amount command {| token := t; amount := None |} tokenBalance
  = BigNumber.times (balance tokenBalance) (Finite (49 # 50)).
Proof.
  destruct command; cbn [computed_amount]; unfold amountToPay, amountToSell, default_amount;
    cbn [amount]; rewrite BigNumber_0_98; reflexivity.
Qed.

(** The [try] block of an order whose contract is found and whose token
    is in the wallet: the guard on the computed amount decides between
    the error and the contract call. *)
Lemma order_block_run (command : CommandType) (chatId : Z) (payload : CommandPayload)
    (env : Env) (data : list BondingMetadata)
    (c : BondingMetadata) (wallet : string) (response : list TokenBalance)
    (tokenBalance : TokenBalance) :
  let computed := computed_amount command payload tokenBalance in
  let head :=
    [ sendMessage chatId (processing_text command payload);
      queryContract registry "getAllBondingMetadata";
      sendMessage chatId (found_text (address c));
      newWalletFromFile;
      api_get (tokens_url wallet) ] in
  let submitted :=
    [ sendMessage chatId "💫 Submitting transaction to blockchain...";
      newWalletFromFile;
      callContract (order_call command payload (address c) tokenBalance) ] in
  queryContract_answer env = inr (Some data) ->
  List.find (matches (token payload)) data = Some c ->
  newWalletFromFile_answer env = inr wallet ->
  api_get_answer env (tokens_url wallet) = inr response ->
  List.find (fun t => String.eqb (identifier t) (sent_token command payload)) response
    = Some tokenBalance ->
  order command chatId payload env =
  if BigNumber.isNaN computed || BigNumber.isLessThanOrEqualTo0 computed
  then (head, inl {| message := "Invalid amount calculated" |})
  else
    match callContract_answer env (order_call command payload (address c) tokenBalance) with
    | inr result => (head ++ submitted ++ [sendMessage chatId (success_text result)], inr tt)
    | inl e => (head ++ submitted, inl e)
    end.
Proof.
  intros computed head submitted Hq Hc Hw Hapi Htb.
  subst computed head submitted.
  destruct command; cbn [sent_token computed_amount] in *;
    unfold order_call, sent_token, received_token, computed_amount;
    run_order; rewrite toNumber_one;
    rewrite Hq, Hc, Hw, Hapi; cbn [fst snd]; rewrite Htb;
    match goal with
    | |- context [BigNumber.isNaN ?x || BigNumber.isLessThanOrEqualTo0 ?x] =>
        destruct (BigNumber.isNaN x || BigNumber.isLessThanOrEqualTo0 x)
    end; [reflexivity | | reflexivity | ];
    match goal with
    | |- context [callContract_answer env ?c] => destruct (callContract_answer env c)
    end; rewrite ?Hw; reflexivity.
Qed.

(** The same order under [handleCommand]. *)
Lemma order_run (command : CommandType) (msg : Message) (token : string)
    (amount : option number) (env : Env) (data : list BondingMetadata)
    (c : BondingMetadata) (wallet : string) (response : list TokenBalance)
    (tokenBalance : TokenBalance) :
  let payload := {| token := token; amount := amount |} in
  let computed := computed_amount command payload tokenBalance in
  let head :=
    [ sendMessage (chat_id msg) (processing_text command payload);
      queryContract registry "getAllBondingMetadata";
      sendMessage (chat_id msg) (found_text (address c));
      newWalletFromFile;
      api_get (tokens_url wallet) ] in
  let failed (m : string) :=
    [ console_error (error_label command) m;
      sendMessage (chat_id msg) ("❌ Transaction failed: " +:+ m);
      sendMessage (chat_id msg)
        ("Error processing " +:+ CommandType_text command +:+ " order: " +:+ m) ] in
  let submitted :=
    [ sendMessage (chat_id msg) "💫 Submitting transaction to blockchain...";
      newWalletFromFile;
      callContract (order_call command payload (address c) tokenBalance) ] in
  queryContract_answer env = inr (Some data) ->
  List.find (matches token) data = Some c ->
  newWalletFromFile_answer env = inr wallet ->
  api_get_answer env (tokens_url wallet) = inr response ->
  List.find (fun t => String.eqb (identifier t) (sent_token command payload)) response
    = Some tokenBalance ->
  handleCommand command msg token amount env =
  if BigNumber.isNaN computed || BigNumber.isLessThanOrEqualTo0 computed
  then (head ++ failed "Invalid amount calculated", inr tt)
  else
    match callContract_answer env (order_call command payload (address c) tokenBalance) with
    | inr result =>
        (head ++ submitted ++ [sendMessage (chat_id msg) (success_text result)], inr tt)
    | inl e => (head ++ submitted ++ failed (message e), inr tt)
    end.
Proof.
  intros payload computed head failed submitted Hq Hc Hw Hapi Htb.
  subst payload computed head failed submitted.
  destruct command; cbn [sent_token computed_amount] in *;
    unfold order_call, sent_token, received_token, computed_amount;
    unfold handleCommand, handleBuy, handleSell; run_order;
    rewrite toNumber_one;
    payload_fields; rewrite Hq, Hc, Hw, Hapi; payload_fields;
    rewrite Htb;
    match goal with
    | |- context [BigNumber.isNaN ?x || BigNumber.isLessThanOrEqualTo0 ?x] =>
        destruct (BigNumber.isNaN x || BigNumber.isLessThanOrEqualTo0 x)
    end; [reflexivity | | reflexivity | ];
    match goal with
    | |- context [callContract_answer env ?c] => destruct (callContract_answer env c)
    end; rewrite ?Hw; reflexivity.
Qed.

(** C4, as the code has it, for an order whose contract is found and
    whose token to send is in the wallet.  An amount that is set and is
    not zero gives, as computed value, the decimal that the amount
    prints as times [10^18] for a buy, and times [10^decimals] of the
    sold token for a sell (stated up to 22 decimals, where the power of
    ten is exact); for an integer amount of magnitude at most [2 ^ 53]
    that decimal is the integer.  No amount gives 0.98 times the
    balance, not rounded down.  The order throws the invalid-amount
    error, and submits no contract call, when this computed value is
    not-a-number or at most zero; otherwise it submits exactly one
    contract call and fails only if that call fails.  The amount
    attached to that call is the floor of the binary64 number nearest to
    the computed value. *)
Theorem order_amount (command : CommandType) (chatId : Z) (token : string)
    (amount : option number) (env : Env) (data : list BondingMetadata)
    (c : BondingMetadata) (wallet : string) (response : list TokenBalance)
    (tokenBalance : TokenBalance) :
  let payload := {| token := token; amount := amount |} in
  let computed := computed_amount command payload tokenBalance in
  let run := order command chatId payload env in
  let call := order_call command payload (address c) tokenBalance in
  queryContract_answer env = inr (Some data) ->
  List.find (matches token) data = Some c ->
  newWalletFromFile_answer env = inr wallet ->
  api_get_answer env (tokens_url wallet) = inr response ->
  List.find (fun t => String.eqb (identifier t) (sent_token command payload)) response
    = Some tokenBalance ->
  (forall a, amount = Some (Finite a) -> ~ (a == 0)%Q ->
     match command with
     | buy => is_value computed (printed a * inject_Z (10 ^ 18))
     | sell =>
         (decimals tokenBalance <= 22)%nat ->
         is_value computed (printed a * inject_Z (10 ^ Z.of_nat (decimals tokenBalance)))
     end)
  /\ (forall n, amount = Some (of_Z n) -> n <> 0%Z -> (Z.abs n <= 2 ^ 53)%Z ->
     match command with
     | buy => is_value computed (inject_Z n * inject_Z (10 ^ 18))
     | sell =>
         (decimals tokenBalance <= 22)%nat ->
         is_value computed (inject_Z n * inject_Z (10 ^ Z.of_nat (decimals tokenBalance)))
     end)
  /\ (amount = None ->
      forall b, balance tokenBalance = Finite b -> is_value computed (b * (98 # 100)))
  /\ (not_positive computed ->
      outcome run = inl {| message := "Invalid amount calculated" |}
      /\ count is_callContract (trace run) = 0%nat)
  /\ (~ not_positive computed ->
      List.filter is_callContract (trace run) = [callContract call]
      /\ outcome run
         = match callContract_answer env call with inl e => inl e | inr _ => inr tt end)
  /\ esdts call =
     [ {| esdt_amount := Math_floor (BigNumber.toNumber computed);
          esdt_nonce := 0;
          esdt_id := sent_token command payload |} ].
Proof.
  intros payload computed run call Hq Hc Hw Hapi Htb.
  pose proof (order_block_run command chatId payload env data c wallet response tokenBalance
                Hq Hc Hw Hapi Htb) as Hrun.
  cbv zeta in Hrun. fold computed call run in Hrun.
  assert (forall a, amount = Some (Finite a) -> ~ (a == 0)%Q ->
     match command with
     | buy => is_value computed (printed a * inject_Z (10 ^ 18))
     | sell =>
         (decimals tokenBalance <= 22)%nat ->
         is_value computed (printed a * inject_Z (10 ^ Z.of_nat (decimals tokenBalance)))
     end) as Hset.
  { intros a Ha Hnz. subst computed payload. rewrite Ha, amount_set by exact Hnz.
    destruct command.
    - rewrite BigNumber_pow10 by lia. apply times_Finite.
    - intros Hd. rewrite BigNumber_pow10 by exact Hd. apply times_Finite. }
  split_and!.
  - exact Hset.
  - intros n Ha Hnz Hn. rewrite <- (printed_integer n Hn). apply Hset; [exact Ha|].
    intros H. apply Hnz. revert H. unfold Qeq. cbn. lia.
  - intros Ha b Hb. subst computed payload. rewrite Ha, amount_unset, Hb.
    destruct (times_Finite b (49 # 50)) as (r & Hr & E).
    exists r. split; [exact Hr|]. rewrite E. apply Qmult_comp; reflexivity.
  - intros Hbad. apply invalid_not_positive in Hbad. rewrite Hrun, Hbad.
    split; reflexivity.
  - intros Hok. apply valid_guard in Hok. rewrite Hrun, Hok.
    destruct (callContract_answer env call); split; reflexivity.
  - reflexivity.
Qed.

Lemma order_amount_witness :
  is_value
    (computed_amount buy {| token := "TKN-1"; amount := Some (parseFloat "0.1") |}
       (Sample.base_entry 1000))
    (inject_Z (10 ^ 17))
  /\ is_value (computed_amount buy Sample.buy_all (Sample.base_entry Sample.large_balance))
       (inject_Z Sample.large_balance * (98 # 100))
  /\ List.filter is_callContract
       (trace (order buy 1 Sample.buy_all (Sample.env Sample.large_balance)))
     = [callContract Sample.call_all]
  /\ outcome (order buy 1 {| token := "TKN-1"; amount := Some (Finite (-5)) |}
                (Sample.env 1000))
     = inl {| message := "Invalid amount calculated" |}.
Proof.
  split_and!.
  - destruct (order_amount buy 1 "TKN-1" (Some (parseFloat "0.1")) (Sample.env 1000)
                Sample.metadata
                {| first_token_id := "TKN-1"; address := "erd1qqqqqqqqqqqqqabc" |}
                "erd1wallet" (Sample.tokens 1000) (Sample.base_entry 1000)
                eq_refl eq_refl eq_refl eq_refl eq_refl) as (H & _).
    destruct (H (3602879701896397 # 36028797018963968) eq_refl) as (r & Hr & E);
      [discriminate|].
    exists r. split; [exact Hr|]. rewrite E. vm_compute. reflexivity.
  - destruct (order_amount buy 1 "TKN-1" None (Sample.env Sample.large_balance)
                Sample.metadata
                {| first_token_id := "TKN-1"; address := "erd1qqqqqqqqqqqqqabc" |}
                "erd1wallet" (Sample.tokens Sample.large_balance)
                (Sample.base_entry Sample.large_balance)
                eq_refl eq_refl eq_refl eq_refl eq_refl) as (_ & _ & H & _).
    exact (H eq_refl _ eq_refl).
  - destruct (order_amount buy 1 "TKN-1" None (Sample.env Sample.large_balance)
                Sample.metadata
                {| first_token_id := "TKN-1"; address := "erd1qqqqqqqqqqqqqabc" |}
                "erd1wallet" (Sample.tokens Sample.large_balance)
                (Sample.base_entry Sample.large_balance)
                eq_refl eq_refl eq_refl eq_refl eq_refl) as (_ & _ & _ & _ & H & _).
    refine (proj1 (H _)). rewrite <- invalid_not_positive. vm_compute. discriminate.
  - destruct (order_amount buy 1 "TKN-1" (Some (Finite (-5))) (Sample.env 1000)
                Sample.metadata
                {| first_token_id := "TKN-1"; address := "erd1qqqqqqqqqqqqqabc" |}
                "erd1wallet" (Sample.tokens 1000) (Sample.base_entry 1000)
                eq_refl eq_refl eq_refl eq_refl eq_refl) as (_ & _ & _ & H & _).
    refine (proj1 (H (proj1 (invalid_not_positive _) _))). vm_compute. reflexivity.
Defined.

(** C4 as stated fails: with no amount and a balance of one unit the
    claim's amount is the floor of 0.98, zero, for which it wants the
    invalid-amount error; the code computes 0.98, lets it pass, and
    submits a swap of zero units. *)
Lemma small_balance_not_refused :
  spec_computeBuyAmount Sample.buy_all Sample.one_unit
    = inl {| message := "Invalid amount calculated" |}
  /\ amountToPay Sample.buy_all Sample.one_unit = Finite (49 # 50)
  /\ outcome (check_amount (amountToPay Sample.buy_all Sample.one_unit) (Sample.env 1))
     = inr tt
  /\ handleCommand buy (Sample.msg 1 "/buy TKN-1") "TKN-1" None (Sample.env 1)
     = ([ sendMessage 1 "🔍 Processing buy order for token: TKN-1...";
          queryContract registry "getAllBondingMetadata";
          sendMessage 1 "✅ Found trading contract: erd1qqqq...qabc";
          newWalletFromFile;
          api_get "/accounts/erd1wallet/tokens";
          sendMessage 1 "💫 Submitting transaction to blockchain...";
          newWalletFromFile;
          callContract
            {| callee := "erd1qqqqqqqqqqqqqabc";
               gasLimit := 10000000;
               funcName := "swap";
               esdts := [ {| esdt_amount := Finite 0; esdt_nonce := 0;
                             esdt_id := "ONE-f9954f" |} ];
               funcArgs := [ e_Str "TKN-1"; e_U (Finite 1) ] |};
          sendMessage 1
            ("✅ Transaction successful!" +:+ LF +:+ LF +:+
             "View on explorer: https://explorer/tx/1") ],
        inr tt).
Proof. split_and!; vm_compute; reflexivity. Qed.

(** ** Orders, step by step *)






(** ** The contract call *)

(** C7: every contract call of an order has the gas limit 10,000,000
    and the function [swap]; it carries one transfer, of the token to
    send, with nonce 0 and, as amount, the floor of the amount to send,
    which is the binary64 number nearest to the amount computed from the
    balance entry of that token; and two arguments, the token to receive
    as a string and then the minimum to receive, which is 1. *)
Theorem swap_call_shape (command : CommandType) (msg : Message) (token : string)
    (amount : option number) (env : Env) (c : CallSpec) :
  In (callContract c) (trace (handleCommand command msg token amount env)) ->
  let payload := {| token := token; amount := amount |} in
  gasLimit c = 10000000%Z
  /\ funcName c = "swap"
  /\ (exists wallet response tokenBalance,
        api_get_answer env (tokens_url wallet) = inr response
        /\ List.find (fun t => String.eqb (identifier t) (sent_token command payload))
             response = Some tokenBalance
        /\ esdts c =
           [ {| esdt_amount :=
                  Math_floor
                    (BigNumber.toNumber (computed_amount command payload tokenBalance));
                esdt_nonce := 0;
                esdt_id := sent_token command payload |} ])
  /\ funcArgs c = [ e_Str (received_token command payload); e_U (of_Z 1) ].
Proof.
  intros H payload. subst payload. destruct command; revert H;
  unfold handleCommand, handleBuy, handleSell; run_order; rewrite toNumber_one.
  - repeat case_match; simplify_eq; cbn; intros H; simplify_eq;
      destruct_or?; simplify_eq; try done.
    all: cbn; split_and!; eauto 10.
  - repeat case_match; simplify_eq; cbn; intros H; simplify_eq;
      destruct_or?; simplify_eq; try done.
    all: cbn; split_and!; eauto 10.
Qed.

Lemma swap_call_shape_witness :
  (In (callContract Sample.call_all)
      (trace (handleCommand buy (Sample.msg 1 "/buy TKN-1") "TKN-1" None
                (Sample.env Sample.large_balance)))
   /\ gasLimit Sample.call_all = 10000000%Z
   /\ funcName Sample.call_all = "swap"
   /\ (exists wallet response tokenBalance,
         api_get_answer (Sample.env Sample.large_balance) (tokens_url wallet) = inr response
         /\ List.find (fun t => String.eqb (identifier t) base_token) response
            = Some tokenBalance
         /\ esdts Sample.call_all =
            [ {| esdt_amount :=
                   Math_floor
                     (BigNumber.toNumber (computed_amount buy Sample.buy_all tokenBalance));
                 esdt_nonce := 0;
                 esdt_id := base_token |} ])
   /\ funcArgs Sample.call_all = [ e_Str "TKN-1"; e_U (of_Z 1) ])
  /\ (In (callContract Sample.call_980)
        (trace (handleCommand buy (Sample.msg 1 "/buy TKN-1") "TKN-1" None (Sample.env 1001)))
      /\ gasLimit Sample.call_980 = 10000000%Z
      /\ funcName Sample.call_980 = "swap"
      /\ (exists wallet response tokenBalance,
            api_get_answer (Sample.env 1001) (tokens_url wallet) = inr response
            /\ List.find (fun t => String.eqb (identifier t) base_token) response
               = Some tokenBalance
            /\ esdts Sample.call_980 =
               [ {| esdt_amount :=
                      Math_floor
                        (BigNumber.toNumber
                           (computed_amount buy Sample.buy_all tokenBalance));
                    esdt_nonce := 0;
                    esdt_id := base_token |} ])
      /\ funcArgs Sample.call_980 = [ e_Str "TKN-1"; e_U (of_Z 1) ]).
Proof.
  assert (In (callContract Sample.call_all)
     (trace (handleCommand buy (Sample.msg 1 "/buy TKN-1") "TKN-1" None
               (Sample.env Sample.large_balance)))) as Hall
    by (vm_compute; do 7 right; left; reflexivity).
  assert (In (callContract Sample.call_980)
     (trace (handleCommand buy (Sample.msg 1 "/buy TKN-1") "TKN-1" None (Sample.env 1001))))
    as H980 by (vm_compute; do 7 right; left; reflexivity).
  split.
  - split; [exact Hall|].
    exact (swap_call_shape buy (Sample.msg 1 "/buy TKN-1") "TKN-1" None
             (Sample.env Sample.large_balance) _ Hall).
  - split; [exact H980|].
    exact (swap_call_shape buy (Sample.msg 1 "/buy TKN-1") "TKN-1" None
             (Sample.env 1001) _ H980).
Defined.

(** C7 as stated fails: the amount attached is not always the floor of
    the computed amount.  With no amount and a balance of
    1000037037036703703701 units the computed amount is
    980036296295969629626.98, whose floor is 980036296295969629626; the
    order hands the binary64 number nearest to the computed amount to
    [swapToken], and the contract call carries 980036296295969587200. *)
Lemma attached_amount_rounded :
  computed_amount buy Sample.buy_all (Sample.base_entry Sample.large_balance)
    = Finite (49001814814798481481349 # 50)
  /\ Math_floor (computed_amount buy Sample.buy_all (Sample.base_entry Sample.large_balance))
     = Finite 980036296295969629626
  /\ handleCommand buy (Sample.msg 1 "/buy TKN-1") "TKN-1" None
       (Sample.env Sample.large_balance)
     = ([ sendMessage 1 "🔍 Processing buy order for token: TKN-1...";
          queryContract registry "getAllBondingMetadata";
          sendMessage 1 "✅ Found trading contract: erd1qqqq...qabc";
          newWalletFromFile;
          api_get "/accounts/erd1wallet/tokens";
          sendMessage 1 "💫 Submitting transaction to blockchain...";
          newWalletFromFile;
          callContract
            {| callee := "erd1qqqqqqqqqqqqqabc";
               gasLimit := 10000000;
               funcName := "swap";
               esdts := [ {| esdt_amount := Finite 980036296295969587200; esdt_nonce := 0;
                             esdt_id := "ONE-f9954f" |} ];
               funcArgs := [ e_Str "TKN-1"; e_U (Finite 1) ] |};
          sendMessage 1
            ("✅ Transaction successful!" +:+ LF +:+ LF +:+
             "View on explorer: https://explorer/tx/1") ],
        inr tt).
Proof. split_and!; vm_compute; reflexivity. Qed.

(** ** Handling a message: what always holds *)

Lemma bind_returns {A B : Type} (m : M A) (k : A -> M B) (env : Env) :
  returns m env -> (forall a, returns (k a) env) -> returns (m ≫= k) env.
Proof.
  unfold returns. rewrite bind_run. intros [a Ha] Hk.
  destruct (m env) as [tr [e|a']]; cbn in Ha; [discriminate|].
  destruct (Hk a') as [b Hb]. destruct (k a' env) as [tr' r]. cbn in *. eauto.
Qed.

Lemma try_catch_returns {A : Type} (m : M A) (handler : Error -> M A) (env : Env) :
  (forall e, returns (handler e) env) -> returns (try_catch m handler) env.
Proof.
  unfold returns. rewrite try_catch_run. intros Hh.
  destruct (m env) as [tr [e|a]]; cbn; [|eauto].
  destruct (Hh e) as [b Hb]. destruct (handler e env) as [tr' r]. cbn in *. eauto.
Qed.

Lemma bind_events {A B : Type} (P : Event -> Prop) (m : M A) (k : A -> M B) (env : Env) :
  Forall P (trace (m env)) -> (forall a, Forall P (trace (k a env))) ->
  Forall P (trace ((m ≫= k) env)).
Proof.
  rewrite bind_run. intros Hm Hk.
  destruct (m env) as [tr [e|a]]; cbn in *; [exact Hm|].
  specialize (Hk a). destruct (k a env) as [tr' r]. cbn in *.
  apply Forall_app. by split.
Qed.

Lemma try_catch_events {A : Type} (P : Event -> Prop) (m : M A)
    (handler : Error -> M A) (env : Env) :
  Forall P (trace (m env)) -> (forall e, Forall P (trace (handler e env))) ->
  Forall P (trace (try_catch m handler env)).
Proof.
  rewrite try_catch_run. intros Hm Hh.
  destruct (m env) as [tr [e|a]]; cbn in *; [|exact Hm].
  specialize (Hh e). destruct (handler e env) as [tr' r]. cbn in *.
  apply Forall_app. by split.
Qed.

Lemma isAuthorized_events (P : Event -> Prop) (this : TradingBot) (chatId : Z) (env : Env) :
  P (console_warn warning_text) -> Forall P (trace (isAuthorized this chatId env)).
Proof.
  intros HP. rewrite isAuthorized_run.
  destruct (size (authorizedChatIds this) =? 0)%nat; cbn; auto.
Qed.

Lemma isAuthorized_returns (this : TradingBot) (chatId : Z) (env : Env) :
  returns (isAuthorized this chatId) env.
Proof.
  unfold returns. rewrite isAuthorized_run.
  destruct (size (authorizedChatIds this) =? 0)%nat; cbn; eauto.
Qed.

Lemma handleCommand_events (command : CommandType) (msg : Message) (token : string)
    (amount : option number) (env : Env) :
  Forall (to_chat (chat_id msg)) (trace (handleCommand command msg token amount env)).
Proof.
  destruct command; unfold handleCommand, handleBuy, handleSell; run_order.
  - repeat case_match; simplify_eq; cbn; repeat constructor; cbn; try done.
  - repeat case_match; simplify_eq; cbn; repeat constructor; cbn; try done.
Qed.

Lemma handleCommand_returns (command : CommandType) (msg : Message) (token : string)
    (amount : option number) (env : Env) :
  returns (handleCommand command msg token amount) env.
Proof.
  unfold handleCommand. apply try_catch_returns. intros e. unfold returns, emit. cbn. eauto.
Qed.

Section Callbacks.
Variables (this : TradingBot) (msg : Message) (env : Env).

Lemma emit_events (P : Event -> Prop) (ev : Event) : P ev -> Forall P (trace (emit ev env)).
Proof. intros H. cbn. auto. Qed.

Lemma emit_returns (ev : Event) : returns (emit ev) env.
Proof. unfold returns. cbn. eauto. Qed.

Lemma mret_returns {A : Type} (a : A) : returns (mret a) env.
Proof. unfold returns. cbn. eauto. Qed.

Lemma help_callback_well_behaved : well_behaved msg env (RegExp_literal "/help", help_callback this).
Proof.
  intros group. cbn. unfold help_callback. split.
  - apply bind_events; [by apply isAuthorized_events|].
    intros []; cbn; repeat constructor; done.
  - apply bind_returns; [apply isAuthorized_returns|].
    intros []; [apply emit_returns | apply mret_returns].
Qed.

Lemma order_callback_well_behaved (command : CommandType) (r : RegExp) :
  well_behaved msg env (r, order_callback this command).
Proof.
  intros group. cbn. unfold order_callback. split.
  - apply bind_events; [by apply isAuthorized_events|].
    intros []; cbn; [|constructor].
    destruct (validate group); [| |apply handleCommand_events].
    + destruct command; cbn; repeat constructor; done.
    + cbn; repeat constructor; done.
  - apply bind_returns; [apply isAuthorized_returns|].
    intros []; cbn; [|apply mret_returns].
    destruct (validate group);
      [apply emit_returns | apply emit_returns | apply handleCommand_returns].
Qed.

Lemma start_callback_well_behaved : well_behaved msg env (RegExp_literal "/start", start_callback this).
Proof.
  intros group. cbn. unfold start_callback. split.
  - apply bind_events; [by apply isAuthorized_events|].
    intros []; cbn; [|constructor].
    unfold loadWallet, call, emit, try_catch, mbind, M_bind.
    destruct (newWalletFromFile_answer env); cbn; repeat constructor; done.
  - apply bind_returns; [apply isAuthorized_returns|].
    intros []; cbn; [|apply mret_returns].
    apply try_catch_returns. intros e. apply emit_returns.
Qed.

Lemma address_callback_well_behaved :
  well_behaved msg env (RegExp_literal "/address", address_callback this).
Proof.
  intros group. cbn. unfold address_callback. split.
  - apply bind_events; [by apply isAuthorized_events|].
    intros []; cbn; [|constructor].
    unfold loadWallet, api_get_tokens, call, emit, ask, try_catch, mbind, M_bind.
    destruct (newWalletFromFile_answer env) as [e|w]; cbn; [repeat constructor; done|].
    destruct (api_get_answer env (tokens_url w)); cbn; repeat constructor; done.
  - apply bind_returns; [apply isAuthorized_returns|].
    intros []; cbn; [|apply mret_returns].
    apply try_catch_returns. intros e. apply emit_returns.
Qed.

Lemma callbacks_well_behaved :
  Forall (well_behaved msg env) (textRegexpCallbacks (setupCommandHandlers this)).
Proof.
  cbn [textRegexpCallbacks setupCommandHandlers].
  constructor; [apply help_callback_well_behaved|].
  constructor; [apply order_callback_well_behaved|].
  constructor; [apply order_callback_well_behaved|].
  constructor; [apply start_callback_well_behaved|].
  constructor; [apply address_callback_well_behaved|].
  constructor.
Qed.

Lemma run_callbacks_well_behaved (cbs : list TextCallback) (s : string) :
  Forall (well_behaved msg env) cbs ->
  Forall (to_chat (chat_id msg)) (trace (run_callbacks cbs msg s env))
  /\ returns (run_callbacks cbs msg s) env.
Proof.
  induction 1 as [|[regexp callback] cbs Hcb _ [IHe IHr]]; cbn [run_callbacks].
  - split; [constructor | apply mret_returns].
  - unfold well_behaved in Hcb. cbn in Hcb. split.
    + apply bind_events; [|intros _; exact IHe].
      destruct (RegExp_exec regexp s) as [group|]; [apply Hcb | constructor].
    + apply bind_returns; [|intros _; exact IHr].
      destruct (RegExp_exec regexp s) as [group|]; [apply Hcb | apply mret_returns].
Qed.

End Callbacks.

(** X1: whatever the message and whatever the services answer, handling
    a message returns: no error leaves a listener or a callback. *)
Theorem processUpdate_never_throws (this : TradingBot) (msg : Message) (env : Env) :
  outcome (processUpdate (setupCommandHandlers this) msg env) = inr tt.
Proof.
  assert (returns (processUpdate (setupCommandHandlers this) msg) env) as [[] H]; [|exact H].
  unfold processUpdate. apply bind_returns.
  - cbn [message_listeners setupCommandHandlers run_listeners].
    apply bind_returns; [|intros _; apply mret_returns].
    unfold message_listener. apply bind_returns; [apply isAuthorized_returns|].
    intros a. destruct (_ && _); [apply emit_returns | apply mret_returns].
  - intros _. destruct (text msg) as [s|]; [|apply mret_returns].
    destruct (JsString.truthy s); [|apply mret_returns].
    apply run_callbacks_well_behaved, callbacks_well_behaved.
Qed.

Lemma message_listener_events (this : TradingBot) (msg : Message) (env : Env) :
  Forall (fun ev => match ev with sendMessage c _ => c = chat_id msg | _ => True end)
    (trace (message_listener this msg env)).
Proof.
  unfold message_listener. apply bind_events; [by apply isAuthorized_events|].
  intros a. destruct (_ && _); cbn; repeat constructor.
Qed.

Lemma to_chat_sender (chatId : Z) (tr : list Event) :
  Forall (to_chat chatId) tr ->
  Forall (fun ev => match ev with sendMessage c _ => c = chatId | _ => True end) tr.
Proof.
  intros H. eapply Forall_impl; [exact H|]. intros [] Hev; cbn in *; tauto.
Qed.

(** X2: every chat message sent while a message is handled goes to the
    chat the message came from. *)
Theorem replies_go_to_sender (this : TradingBot) (msg : Message) (env : Env)
    (chatId : Z) (content : string) :
  In (sendMessage chatId content)
     (trace (processUpdate (setupCommandHandlers this) msg env)) ->
  chatId = chat_id msg.
Proof.
  assert (Forall (fun ev => match ev with sendMessage c _ => c = chat_id msg | _ => True end)
            (trace (processUpdate (setupCommandHandlers this) msg env))) as H.
  { unfold processUpdate. apply bind_events.
    - cbn [message_listeners setupCommandHandlers run_listeners].
      apply bind_events; [apply message_listener_events | intros _; constructor].
    - intros _. destruct (text msg) as [s|]; [|constructor].
      destruct (JsString.truthy s); [|constructor].
      apply to_chat_sender, run_callbacks_well_behaved, callbacks_well_behaved. }
  intros Hin. apply list_elem_of_In in Hin. rewrite Forall_forall in H. exact (H _ Hin).
Qed.

Lemma isAuthorized_granted (this : TradingBot) (chatId : Z) (env : Env) :
  authorizedChatIds this = ∅ \/ chatId ∈ authorizedChatIds this ->
  outcome (isAuthorized this chatId env) = inr true.
Proof.
  intros H. rewrite isAuthorized_run.
  destruct (Nat.eqb_spec (size (authorizedChatIds this)) 0) as [E|E]; [reflexivity|].
  destruct H as [H|H]; [by apply size_zero_empty in H|]. cbn. by rewrite bool_decide_eq_true_2.
Qed.

(** X3: a chat that is authorized, by the set or because the set is
    empty, never gets the unauthorized message, whatever it sends and
    whatever the services answer. *)
Theorem authorized_never_refused (this : TradingBot) (msg : Message) (env : Env)
    (chatId : Z) :
  authorizedChatIds this = ∅ \/ chat_id msg ∈ authorizedChatIds this ->
  ~ In (sendMessage chatId unauthorized_text)
       (trace (processUpdate (setupCommandHandlers this) msg env)).
Proof.
  intros Hauth.
  assert (Forall (to_chat (chat_id msg))
            (trace (processUpdate (setupCommandHandlers this) msg env))) as H.
  { unfold processUpdate. apply bind_events.
    - cbn [message_listeners setupCommandHandlers run_listeners].
      apply bind_events; [|intros _; constructor].
      unfold message_listener. rewrite bind_run.
      pose proof (isAuthorized_granted this (chat_id msg) env Hauth) as Hg.
      pose proof (isAuthorized_events (to_chat (chat_id msg)) this (chat_id msg) env I) as He.
      destruct (isAuthorized this (chat_id msg) env) as [tr r]. cbn in Hg, He. subst r.
      cbn. by rewrite app_nil_r.
    - intros _. destruct (text msg) as [s|]; [|constructor].
      destruct (JsString.truthy s); [|constructor].
      apply run_callbacks_well_behaved, callbacks_well_behaved. }
  intros Hin. apply list_elem_of_In in Hin. rewrite Forall_forall in H.
  specialize (H _ Hin). cbn in H. tauto.
Qed.

(** ** Orders: resolution, amounts, calls *)

Lemma findContractAddress_cases (tokenId : string) (env : Env) :
  findContractAddress tokenId env =
  match queryContract_answer env with
  | inl e =>
      ([queryContract registry "getAllBondingMetadata";
        console_log "query error for getAllBondingMetadata  : , error";
        console_error "Error finding contract address:" (message e)],
       inl {| message := wrapped tokenId (message e) |})
  | inr None =>
      ([queryContract registry "getAllBondingMetadata";
        console_error "Error finding contract address:" undefined_find_text],
       inl {| message := wrapped tokenId undefined_find_text |})
  | inr (Some data) =>
      match List.find (matches tokenId) data with
      | Some c => ([queryContract registry "getAllBondingMetadata"], inr (address c))
      | None =>
          ([queryContract registry "getAllBondingMetadata";
            console_error "Error finding contract address:"
              ("No contract found for token " +:+ tokenId)],
           inl {| message := wrapped tokenId ("No contract found for token " +:+ tokenId) |})
      end
  end.
Proof.
  unfold findContractAddress, scQuery, call.
  rewrite try_catch_run, bind_run, try_catch_run.
  destruct (queryContract_answer env) as [e|[data|]]; [reflexivity| |reflexivity].
  destruct (List.find (matches tokenId) data); reflexivity.
Qed.

(** X4: every error of [findContractAddress] carries the message of its
    cause behind the prefix naming the token, and that cause is written
    on the console; the registry was asked once and nothing was sent to
    the chat. *)
Theorem findContractAddress_failure (tokenId : string) (env : Env) (error : Error) :
  outcome (findContractAddress tokenId env) = inl error ->
  (exists m, message error = wrapped tokenId m
             /\ In (console_error "Error finding contract address:" m)
                  (trace (findContractAddress tokenId env)))
  /\ count is_queryContract (trace (findContractAddress tokenId env)) = 1%nat
  /\ count is_sendMessage (trace (findContractAddress tokenId env)) = 0%nat.
Proof.
  rewrite findContractAddress_cases.
  destruct (queryContract_answer env) as [e|[data|]]; [| |].
  - intros [= <-]. cbn. eauto 10.
  - destruct (List.find (matches tokenId) data); [discriminate|].
    intros [= <-]. cbn. eauto 10.
  - intros [= <-]. cbn. eauto 10.
Qed.

(** X5: an address that [findContractAddress] returns is the address of
    an entry of the answer of the registry whose first token id is the
    token asked for, found with a single query. *)
Theorem findContractAddress_sound (tokenId : string) (env : Env) (found : string) :
  outcome (findContractAddress tokenId env) = inr found ->
  exists data c,
    queryContract_answer env = inr (Some data)
    /\ In c data
    /\ first_token_id c = tokenId
    /\ address c = found
    /\ trace (findContractAddress tokenId env)
       = [queryContract registry "getAllBondingMetadata"].
Proof.
  rewrite findContractAddress_cases.
  destruct (queryContract_answer env) as [e|[data|]]; [discriminate| |discriminate].
  destruct (List.find (matches tokenId) data) as [c|] eqn:E; [|discriminate].
  intros [= <-]. apply find_some in E as [Hin Hc].
  exists data, c. split_and!; try done. by apply String.eqb_eq.
Qed.

(** X6: a contract call of an order carries, as amount, the floor of
    the binary64 number nearest to the amount computed from the balance
    entry of the token to send, and that computed amount passed the
    guard; so the amount attached is a number and is not negative. *)
Theorem submitted_amount_valid (command : CommandType) (msg : Message) (token : string)
    (amount : option number) (env : Env) (c : CallSpec) :
  In (callContract c) (trace (handleCommand command msg token amount env)) ->
  let payload := {| token := token; amount := amount |} in
  exists wallet response tokenBalance,
    api_get_answer env (tokens_url wallet) = inr response
    /\ List.find (fun t => String.eqb (identifier t) (sent_token command payload))
         response = Some tokenBalance
    /\ ~ not_positive (computed_amount command payload tokenBalance)
    /\ map esdt_amount (esdts c)
       = [Math_floor (BigNumber.toNumber (computed_amount command payload tokenBalance))]
    /\ nonnegative
         (Math_floor (BigNumber.toNumber (computed_amount command payload tokenBalance))).
Proof.
  intros H payload. subst payload.
  enough (exists wallet response tokenBalance,
    api_get_answer env (tokens_url wallet) = inr response
    /\ List.find (fun t => String.eqb (identifier t)
                    (sent_token command {| token := token; amount := amount |}))
         response = Some tokenBalance
    /\ ~ not_positive (computed_amount command {| token := token; amount := amount |}
                         tokenBalance)
    /\ map esdt_amount (esdts c)
       = [Math_floor (BigNumber.toNumber
            (computed_amount command {| token := token; amount := amount |} tokenBalance))])
    as (wallet & response & tokenBalance & H1 & H2 & H3 & H4).
  { exists wallet, response, tokenBalance. split_and!; try done.
    by apply toNumber_nonnegative. }
  destruct command; revert H;
  unfold handleCommand, handleBuy, handleSell; run_order; rewrite toNumber_one.
  - repeat case_match; simplify_eq; cbn; intros H; simplify_eq;
      destruct_or?; simplify_eq; try done.
    all: cbn; do 3 eexists; split_and!; [eassumption | eassumption | | reflexivity];
      rewrite <- invalid_not_positive; congruence.
  - repeat case_match; simplify_eq; cbn; intros H; simplify_eq;
      destruct_or?; simplify_eq; try done.
    all: cbn; do 3 eexists; split_and!; [eassumption | eassumption | | reflexivity];
      rewrite <- invalid_not_positive; congruence.
Qed.

(** X7: when the registry knows the token, the wallet loads, the
    balance API lists the token to send, the amount passes the guard and
    the contract call succeeds, an order is this sequence: processing
    message, query, contract found, wallet, balances, submitting
    message, wallet, contract call, success message. *)
Theorem order_success (command : CommandType) (msg : Message) (token : string)
    (amount : option number) (env : Env) (data : list BondingMetadata)
    (c : BondingMetadata) (wallet : string) (response : list TokenBalance)
    (tokenBalance : TokenBalance) (result : TxResult) :
  let payload := {| token := token; amount := amount |} in
  queryContract_answer env = inr (Some data) ->
  List.find (matches token) data = Some c ->
  newWalletFromFile_answer env = inr wallet ->
  api_get_answer env (tokens_url wallet) = inr response ->
  List.find (fun t => String.eqb (identifier t) (sent_token command payload)) response
    = Some tokenBalance ->
  ~ not_positive (computed_amount command payload tokenBalance) ->
  callContract_answer env (order_call command payload (address c) tokenBalance)
    = inr result ->
  handleCommand command msg token amount env =
  ([ sendMessage (chat_id msg) (processing_text command payload);
     queryContract registry "getAllBondingMetadata";
     sendMessage (chat_id msg) (found_text (address c));
     newWalletFromFile;
     api_get (tokens_url wallet);
     sendMessage (chat_id msg) "💫 Submitting transaction to blockchain...";
     newWalletFromFile;
     callContract (order_call command payload (address c) tokenBalance);
     sendMessage (chat_id msg) (success_text result) ],
   inr tt).
Proof.
  intros payload Hq Hc Hw Hapi Htb Hvalid Hcall. subst payload.
  rewrite (order_run command msg token amount env data c wallet response tokenBalance
             Hq Hc Hw Hapi Htb).
  cbv zeta. rewrite (valid_guard _ Hvalid), Hcall. reflexivity.
Qed.

(** X8: without an amount and with a balance of at least one unit
    (and below [2 ^ 1024]), the order sends the floor of the binary64
    number nearest to 0.98 times the balance: an integer that is not
    negative, is at most the balance whatever the rounding does, and is
    less than one unit under 0.98 times the balance taken with a
    relative error of [2 ^ -52]. *)
Theorem default_amount_bounds (command : CommandType) (payload : CommandPayload)
    (tokenBalance : TokenBalance) (b : Q) :
  amount payload = None ->
  balance tokenBalance = Finite b ->
  (1 <= b)%Q ->
  (b < inject_Z (2 ^ 1024))%Q ->
  exists k : Z,
    Math_floor (BigNumber.toNumber (computed_amount command payload tokenBalance)) = of_Z k
    /\ (0 <= k)%Z
    /\ (inject_Z k <= b)%Q
    /\ (b * (98 # 100) * (1 - (1 # 2 ^ 52)) < inject_Z (k + 1))%Q.
Proof.
  intros Ha Hb Hone Hmax.
  assert (computed_amount command payload tokenBalance = Finite (Qred (b * (49 # 50)))) as ->.
  { destruct payload as [t a]. cbn in Ha. subst a. rewrite amount_unset, Hb. reflexivity. }
  cbn [BigNumber.toNumber].
  pose proof (Qred_correct (b * (49 # 50))) as E.
  destruct (Qred (b * (49 # 50))) as [[|n|n] d] eqn:Ex.
  - exfalso. revert E. unfold Qeq. cbn [Qnum Qden]. intros E.
    assert (b * (49 # 50) == 0)%Q as E0 by (unfold Qeq; cbn [Qnum Qden]; lia).
    lra.
  - unfold binary64. cbn [Qnum Qden].
    pose proof (nearest_error n d) as [Hu Hl]. pose proof (nearest_nonneg n d) as H0.
    pose proof tiny_bounds as [Ht0 Ht1].
    change (2 ^ 53)%positive with 9007199254740992%positive in *.
    change (2 ^ 52)%positive with 4503599627370496%positive.
    set (v := nearest (Zpos n) (Zpos d)) in *. set (x := Zpos n # d) in *.
    set (M := inject_Z (2 ^ 1024)) in *.
    assert (Qle_bool M v = false) as ->.
    { destruct (Qle_bool M v) eqn:Eo; [|reflexivity].
      apply Qle_bool_iff in Eo. lra. }
    cbn [Math_floor]. exists (Qfloor v).
    pose proof (Qfloor_le v) as Hf1. pose proof (Qlt_floor v) as Hf2.
    split_and!.
    + reflexivity.
    + change 0%Z with (Qfloor (inject_Z 0)). by apply Qfloor_resp_le.
    + lra.
    + lra.
  - exfalso. assert (Zneg n # d < 0)%Q as Hneg by reflexivity. lra.
Qed.

(** X9: an order asks the registry exactly once, fetches the balances
    at most once, loads the wallet at most twice, and submits a contract
    call at most once and only after the balances were fetched. *)
Theorem order_call_counts (command : CommandType) (msg : Message) (token : string)
    (amount : option number) (env : Env) :
  let tr := trace (handleCommand command msg token amount env) in
  count is_queryContract tr = 1%nat
  /\ (count is_api_get tr <= 1)%nat
  /\ (count is_callContract tr <= count is_api_get tr)%nat
  /\ (count is_api_get tr <= count is_newWalletFromFile tr)%nat
  /\ (count is_newWalletFromFile tr <= 2)%nat.
Proof.
  cbv zeta. destruct command; unfold handleCommand, handleBuy, handleSell; run_order.
  - repeat case_match; simplify_eq; cbn; lia.
  - repeat case_match; simplify_eq; cbn; lia.
Qed.

(** ** Texts: trimming, words, numerals *)

#[local] Arguments String.append !_ _ / : simpl nomatch.

Lemma every_cons (p : ascii -> bool) (c : ascii) (s : string) :
  every p (String c s) = true <-> p c = true /\ every p s = true.
Proof. cbn. apply andb_true_iff. Qed.

Lemma append_assoc (a b c : string) : (a +:+ b) +:+ c = a +:+ (b +:+ c).
Proof. induction a as [|x a IH]; cbn; [reflexivity | by rewrite IH]. Qed.

Lemma append_empty_r (a : string) : a +:+ "" = a.
Proof. induction a as [|x a IH]; cbn; [reflexivity | by rewrite IH]. Qed.

Lemma trimStart_blank (pad s : string) :
  blank pad -> JsString.trimStart (pad +:+ s) = JsString.trimStart s.
Proof.
  unfold blank. induction pad as [|c pad IH]; [reflexivity|].
  rewrite every_cons. intros [Hc Hpad]. cbn. rewrite Hc. by apply IH.
Qed.

Lemma trimStart_word (w s : string) : word w -> JsString.trimStart (w +:+ s) = w +:+ s.
Proof.
  intros [Hne Hw]. destruct w as [|c w]; [done|].
  apply every_cons in Hw as [Hc _]. cbn. by destruct (JsString.is_space c).
Qed.

Lemma trimEnd_blank (pad : string) : blank pad -> JsString.trimEnd pad = "".
Proof.
  unfold blank. induction pad as [|c pad IH]; [reflexivity|].
  rewrite every_cons. intros [Hc Hpad]. cbn. by rewrite IH, Hc.
Qed.

Lemma trimEnd_pad (s pad : string) :
  blank pad -> JsString.trimEnd (s +:+ pad) = JsString.trimEnd s.
Proof.
  intros Hpad. induction s as [|c s IH]; cbn.
  - by apply trimEnd_blank.
  - by rewrite IH.
Qed.

Lemma trimEnd_spaceless (w : string) : spaceless w -> JsString.trimEnd w = w.
Proof.
  unfold spaceless. induction w as [|c w IH]; [reflexivity|].
  rewrite every_cons. intros [Hc Hw]. cbn. rewrite (IH Hw).
  destruct w; [|reflexivity]. by destruct (JsString.is_space c).
Qed.

Lemma trimEnd_word (s w : string) : word w -> JsString.trimEnd (s +:+ w) = s +:+ w.
Proof.
  intros [Hne Hw]. induction s as [|c s IH]; cbn.
  - by apply trimEnd_spaceless.
  - rewrite IH. destruct (s +:+ w) eqn:E; [|reflexivity].
    destruct s; cbn in E; [done | discriminate].
Qed.

Lemma split_ws_from_nonempty (b : bool) (s : string) : JsString.split_ws_from b s <> [].
Proof.
  revert b. induction s as [|c s IH]; intros b; cbn; [discriminate|].
  destruct (JsString.is_space c).
  - destruct b; [apply IH | discriminate].
  - destruct (JsString.split_ws_from false s); discriminate.
Qed.

Lemma cons_head_prefix (c : ascii) (t : string) (l : list string) :
  l <> [] -> JsString.cons_head c (prefix_head t l) = prefix_head (String c t) l.
Proof. destruct l; [done | reflexivity]. Qed.

Lemma split_ws_spaceless (t r : string) :
  spaceless t ->
  JsString.split_ws_from false (t +:+ r) = prefix_head t (JsString.split_ws_from false r).
Proof.
  unfold spaceless. induction t as [|c t IH].
  - intros _. cbn. pose proof (split_ws_from_nonempty false r).
    by destruct (JsString.split_ws_from false r).
  - rewrite every_cons. intros [Hc Ht]. cbn.
    apply negb_true_iff in Hc. rewrite Hc, (IH Ht).
    apply cons_head_prefix, split_ws_from_nonempty.
Qed.

Lemma split_ws_skip (pad r : string) :
  blank pad -> JsString.split_ws_from true (pad +:+ r) = JsString.split_ws_from true r.
Proof.
  unfold blank. induction pad as [|c pad IH]; [reflexivity|].
  rewrite every_cons. intros [Hc Hpad]. cbn. rewrite Hc. by apply IH.
Qed.

Lemma split_ws_gap (sep r : string) :
  blank sep -> sep <> "" ->
  JsString.split_ws_from false (sep +:+ r) = "" :: JsString.split_ws_from true r.
Proof.
  intros Hsep Hne. destruct sep as [|c sep]; [done|].
  apply every_cons in Hsep as [Hc Hsep]. cbn. rewrite Hc. f_equal.
  by apply split_ws_skip.
Qed.

Lemma split_ws_resume (w r : string) :
  word w -> JsString.split_ws_from true (w +:+ r) = JsString.split_ws_from false (w +:+ r).
Proof.
  intros [Hne Hw]. destruct w as [|c w]; [done|].
  apply every_cons in Hw as [Hc _]. apply negb_true_iff in Hc. cbn. by rewrite Hc.
Qed.

Lemma split_ws_one (t : string) : spaceless t -> JsString.split_ws t = [t].
Proof.
  intros Ht. unfold JsString.split_ws. rewrite <- (append_empty_r t) at 1.
  rewrite split_ws_spaceless by done. cbn. by rewrite append_empty_r.
Qed.

Lemma split_ws_two (t sep a : string) :
  word t -> blank sep -> sep <> "" -> word a ->
  JsString.split_ws (t +:+ sep +:+ a) = [t; a].
Proof.
  intros [_ Ht] Hsep Hne Ha. unfold JsString.split_ws.
  rewrite split_ws_spaceless, split_ws_gap by done.
  rewrite <- (append_empty_r a), split_ws_resume by done.
  rewrite (append_empty_r a). fold (JsString.split_ws a).
  rewrite split_ws_one by apply Ha. cbn. by rewrite append_empty_r.
Qed.


Lemma truthy_padded (pad w r : string) : word w -> JsString.truthy (pad +:+ w +:+ r) = true.
Proof. intros [Hne _]. destruct pad; [by destruct w | reflexivity]. Qed.

Lemma trimStart_length (s : string) :
  (String.length (JsString.trimStart s) <= String.length s)%nat.
Proof.
  induction s as [|c s IH]; cbn; [lia|].
  destruct (JsString.is_space c); cbn; lia.
Qed.

Lemma trimStart_fixed (s r : string) :
  JsString.trimStart s = s -> s <> "" -> JsString.trimStart (s +:+ r) = s +:+ r.
Proof.
  intros Hs Hne. destruct s as [|c s]; [done|]. cbn in *.
  destruct (JsString.is_space c); [|reflexivity].
  exfalso. pose proof (trimStart_length s) as Hlen. rewrite Hs in Hlen. cbn in Hlen. lia.
Qed.

Lemma trim_padded (pad1 body w pad2 : string) :
  blank pad1 -> blank pad2 -> word w ->
  JsString.trimStart (body +:+ w) = body +:+ w ->
  JsString.trim (pad1 +:+ (body +:+ w) +:+ pad2) = body +:+ w.
Proof.
  intros H1 H2 Hw Hstart. unfold JsString.trim.
  rewrite trimStart_blank by done.
  rewrite trimStart_fixed; [| exact Hstart |].
  - rewrite trimEnd_pad by done. by apply trimEnd_word.
  - destruct Hw as [Hne _]. destruct body; [exact Hne | discriminate].
Qed.

Lemma validate_one_word (pad1 t pad2 : string) :
  blank pad1 -> word t -> blank pad2 ->
  validate (Some (pad1 +:+ t +:+ pad2)) = Valid t None.
Proof.
  intros H1 Ht H2. unfold validate. rewrite truthy_padded by done. cbn [negb].
  pose proof (trimStart_word t "" Ht) as Hs. rewrite append_empty_r in Hs.
  pose proof (trim_padded pad1 "" t pad2 H1 H2 Ht Hs) as E.
  cbn [String.append] in E. rewrite E, split_ws_one by apply Ht. reflexivity.
Qed.

Lemma validate_two_words (pad1 t sep a pad2 : string) :
  blank pad1 -> word t -> blank sep -> sep <> "" -> word a -> blank pad2 ->
  validate (Some (pad1 +:+ (t +:+ sep +:+ a) +:+ pad2))
  = if isNaN (parseFloat a) then InvalidAmount else Valid t (Some (parseFloat a)).
Proof.
  intros H1 Ht Hsep Hne Ha H2. unfold validate.
  rewrite append_assoc, truthy_padded by done. cbn [negb].
  rewrite <- append_assoc.
  pose proof (trim_padded pad1 (t +:+ sep) a pad2 H1 H2 Ha) as E.
  rewrite !append_assoc in E. rewrite !append_assoc.
  rewrite E by (by apply trimStart_word).
  rewrite split_ws_two by done.
  destruct Ha as [Hane _]. destruct a as [|c a]; [done|]. cbn [JsString.truthy].
  destruct (isNaN (parseFloat (String c a))); reflexivity.
Qed.

(** X10: an argument text made of one word between blanks gives that
    word as token and no amount; a word, blanks and a second word give
    the first word as token and the number [parseFloat] reads from the
    second, or the invalid-amount answer when that is [NaN]. *)
Theorem validate_words (pad1 t pad2 : string) :
  blank pad1 -> word t -> blank pad2 ->
  validate (Some (pad1 +:+ t +:+ pad2)) = Valid t None
  /\ forall sep a, blank sep -> sep <> "" -> word a ->
       validate (Some (pad1 +:+ (t +:+ sep +:+ a) +:+ pad2))
       = if isNaN (parseFloat a) then InvalidAmount else Valid t (Some (parseFloat a)).
Proof.
  intros H1 Ht H2. split.
  - by apply validate_one_word.
  - intros sep a Hsep Hne Ha. by apply validate_two_words.
Qed.

Lemma cons_head_spaceless (c : ascii) (l : list string) :
  JsString.is_space c = false -> Forall spaceless l -> Forall spaceless (JsString.cons_head c l).
Proof.
  intros Hc Hl. destruct Hl as [|w l Hw Hl]; cbn.
  - repeat constructor. unfold spaceless. cbn. by rewrite Hc.
  - constructor; [|exact Hl]. unfold spaceless in *. cbn. by rewrite Hc.
Qed.

Lemma split_ws_from_spaceless (b : bool) (s : string) :
  Forall spaceless (JsString.split_ws_from b s).
Proof.
  revert b. induction s as [|c s IH]; intros b; cbn.
  - by repeat constructor.
  - destruct (JsString.is_space c) eqn:Hc.
    + destruct b; [apply IH | constructor; [done | apply IH]].
    + by apply cons_head_spaceless.
Qed.

(** X11: a token that passes the validation holds no white space. *)
Theorem validate_token_spaceless (match1 : option string) (token : string)
    (amount : option number) :
  validate match1 = Valid token amount -> spaceless token.
Proof.
  destruct match1 as [captured|]; [|discriminate]. unfold validate.
  destruct (negb (JsString.truthy captured)); [discriminate|].
  pose proof (split_ws_from_spaceless false (JsString.trim captured)) as Hall.
  fold (JsString.split_ws (JsString.trim captured)) in Hall.
  destruct (JsString.split_ws (JsString.trim captured)) as [|w ws]; [discriminate|].
  apply Forall_cons in Hall as [Hw _].
  destruct ws as [|amountStr ws'].
  - by intros [= <- _].
  - destruct (JsString.truthy amountStr); [|by intros [= <- _]].
    destruct (isNaN (parseFloat amountStr)); [discriminate | by intros [= <- _]].
Qed.

Lemma strip_prefix_app (p r : string) : JsString.strip_prefix p (p +:+ r) = Some r.
Proof.
  induction p as [|c p IH]; cbn; [reflexivity|]. by rewrite Ascii.eqb_refl.
Qed.

Lemma search_here (p r : string) : JsString.search p (p +:+ r) = Some r.
Proof.
  pose proof (strip_prefix_app p r) as E.
  destruct (p +:+ r); cbn; by rewrite E.
Qed.

Lemma search_app (pre p post : string) :
  exists rest, JsString.search p (pre +:+ p +:+ post) = Some rest.
Proof.
  induction pre as [|c pre IH]; cbn [String.append].
  - exists post. apply search_here.
  - destruct IH as [rest IH]. cbn [JsString.search].
    destruct (JsString.strip_prefix p (String c (pre +:+ p +:+ post))); eauto.
Qed.

Lemma dot_star_line (line more : string) (c : ascii) :
  one_line line -> JsString.is_line_terminator c = true ->
  JsString.dot_star (line +:+ String c more) = line.
Proof.
  unfold one_line. intros Hline Hc. induction line as [|x line IH]; cbn.
  - by rewrite Hc.
  - apply every_cons in Hline as [Hx Hline]. apply negb_true_iff in Hx.
    rewrite Hx. by rewrite IH.
Qed.

Lemma dot_star_whole (line : string) : one_line line -> JsString.dot_star line = line.
Proof.
  unfold one_line. induction line as [|x line IH]; [reflexivity|].
  rewrite every_cons. intros [Hx Hline]. apply negb_true_iff in Hx. cbn.
  by rewrite Hx, IH.
Qed.

(** X12: for a text that starts with the command, the captured
    arguments are the rest of the first line: what follows a line break
    is not read. *)
Theorem capture_stops_at_line_end (p line more : string) (c : ascii) :
  one_line line -> JsString.is_line_terminator c = true ->
  RegExp_exec (RegExp_capture p) (p +:+ line +:+ String c more) = Some (Some line)
  /\ RegExp_exec (RegExp_capture p) (p +:+ line) = Some (Some line).
Proof.
  intros Hline Hc. unfold RegExp_exec, JsString.exec_group.
  rewrite !search_here, dot_star_line, dot_star_whole by done. done.
Qed.

(** ** Decimal numerals *)

Lemma read_digits_uint (d : Decimal.uint) (acc : Z) (n : nat) :
  read_digits decimal_digit 10 acc n (NilEmpty.string_of_uint d)
  = (uint_value acc d, (n + Decimal.nb_digits d)%nat, "").
Proof.
  revert acc n. induction d; intros acc n; cbn [NilEmpty.string_of_uint read_digits];
    [cbn; f_equal; f_equal; lia | ..];
    (change (decimal_digit _) with (Some 0%Z) ||
     change (decimal_digit _) with (Some 1%Z) ||
     change (decimal_digit _) with (Some 2%Z) ||
     change (decimal_digit _) with (Some 3%Z) ||
     change (decimal_digit _) with (Some 4%Z) ||
     change (decimal_digit _) with (Some 5%Z) ||
     change (decimal_digit _) with (Some 6%Z) ||
     change (decimal_digit _) with (Some 7%Z) ||
     change (decimal_digit _) with (Some 8%Z) ||
     change (decimal_digit _) with (Some 9%Z));
    cbv iota; rewrite IHd; cbn [uint_value Decimal.nb_digits]; f_equal; f_equal; lia.
Qed.

Lemma uint_value_acc (d : Decimal.uint) (acc : positive) :
  Zpos (Pos.of_uint_acc d acc) = uint_value (Zpos acc) d.
Proof.
  revert acc. induction d; intros acc; cbn [Pos.of_uint_acc uint_value];
    [reflexivity | ..]; rewrite IHd; f_equal; lia.
Qed.

Lemma uint_value_of_uint (d : Decimal.uint) : Z.of_N (Pos.of_uint d) = uint_value 0 d.
Proof.
  induction d; cbn [Pos.of_uint uint_value]; [reflexivity | exact IHd | ..];
    cbn [Z.of_N]; rewrite uint_value_acc; reflexivity.
Qed.

Lemma uint_value_to_uint (p : positive) : uint_value 0 (Pos.to_uint p) = Zpos p.
Proof. by rewrite <- uint_value_of_uint, DecimalPos.Unsigned.of_to. Qed.

Lemma string_of_uint_digits (d : Decimal.uint) :
  every is_digit (NilEmpty.string_of_uint d) = true.
Proof. induction d; cbn; [reflexivity | ..]; exact IHd. Qed.

(** [parseInt] of a decimal numeral, with or without a minus sign. *)
Lemma parseInt_uint (d : Decimal.uint) :
  d <> Decimal.Nil ->
  parseInt (NilEmpty.string_of_uint d) = Some (integer_number (uint_value 0 d))
  /\ parseInt (String "-" (NilEmpty.string_of_uint d))
     = Some (integer_number (- uint_value 0 d)).
Proof.
  intros Hd. destruct d as [|d|d|d|d|d|d|d|d|d|d]; [done | ..];
    (destruct d as [|d|d|d|d|d|d|d|d|d|d];
     [ split; reflexivity | .. ];
     unfold parseInt; cbn [NilEmpty.string_of_uint JsString.trimStart read_sign];
     cbn [JsString.trimStart JsString.is_space nat_of_ascii];
     split;
     (cbv beta iota zeta delta [JsString.trimStart JsString.is_space read_sign
        nat_of_ascii N_of_ascii N_of_digits N.to_nat Pos.to_nat Pos.iter_op
        Nat.leb Nat.eqb andb orb N.add N.mul Pos.add Pos.mul Pos.succ Nat.add];
      cbn [read_digits];
      repeat (match goal with
              | |- context [decimal_digit ?c] =>
                  let v := eval vm_compute in (decimal_digit c) in
                  change (decimal_digit c) with v
              end; cbv iota);
      rewrite read_digits_uint; cbn [uint_value]; reflexivity)).
Qed.

Lemma every_impl (p q : ascii -> bool) (s : string) :
  (forall c, p c = true -> q c = true) -> every p s = true -> every q s = true.
Proof.
  intros Hpq. induction s as [|c s IH]; [done|].
  rewrite !every_cons. intros [Hc Hs]. auto.
Qed.

Lemma digit_plain (c : ascii) :
  is_digit c = true ->
  negb (JsString.is_space c) = true /\ negb (Ascii.eqb c ",") = true.
Proof.
  destruct c as [[] [] [] [] [] [] [] []]; cbn; intros H; try discriminate H; done.
Qed.

Lemma space_no_comma (c : ascii) :
  JsString.is_space c = true -> negb (Ascii.eqb c ",") = true.
Proof.
  destruct c as [[] [] [] [] [] [] [] []]; cbn; intros H; try discriminate H; done.
Qed.

Lemma Z_text_cases (z : Z) :
  exists d, d <> Decimal.Nil
    /\ ((Z_text z = NilEmpty.string_of_uint d /\ z = uint_value 0 d)
        \/ (Z_text z = String "-" (NilEmpty.string_of_uint d) /\ z = (- uint_value 0 d)%Z)).
Proof.
  destruct z as [|p|p].
  - exists (Decimal.D0 Decimal.Nil). split; [done|]. left. split; reflexivity.
  - exists (Pos.to_uint p). split; [apply DecimalPos.Unsigned.to_uint_nonnil|]. left.
    rewrite uint_value_to_uint. split; [|reflexivity].
    unfold Z_text. cbn [Z.to_int NilZero.string_of_int NilZero.string_of_uint].
    pose proof (DecimalPos.Unsigned.to_uint_nonnil p).
    unfold NilZero.string_of_uint. by destruct (Pos.to_uint p).
  - exists (Pos.to_uint p). split; [apply DecimalPos.Unsigned.to_uint_nonnil|]. right.
    rewrite uint_value_to_uint. split; [|reflexivity].
    unfold Z_text. cbn [Z.to_int NilZero.string_of_int].
    pose proof (DecimalPos.Unsigned.to_uint_nonnil p).
    unfold NilZero.string_of_uint. by destruct (Pos.to_uint p).
Qed.

(** Reading back the decimal text of an integer gives the integer as a
    number: the integer itself up to [2 ^ 53]. *)
Lemma parseInt_Z_text (z : Z) : parseInt (Z_text z) = Some (integer_number z).
Proof.
  destruct (Z_text_cases z) as (d & Hd & [[-> ->]|[-> ->]]); by apply parseInt_uint.
Qed.

Lemma parseInt_Z_text_safe (z : Z) :
  (Z.abs z <= 2 ^ 53)%Z -> parseInt (Z_text z) = Some z.
Proof. intros Hz. by rewrite parseInt_Z_text, integer_number_exact. Qed.

Lemma Z_text_plain (z : Z) : word (Z_text z) /\ no_comma (Z_text z).
Proof.
  unfold word. destruct (Z_text_cases z) as (d & Hd & [[-> _]|[-> _]]).
  - pose proof (string_of_uint_digits d) as Hdig. split_and!.
    + destruct d; [done | ..]; cbn; discriminate.
    + eapply every_impl; [|exact Hdig]. intros c Hc. by apply digit_plain.
    + eapply every_impl; [|exact Hdig]. intros c Hc. by apply digit_plain.
  - pose proof (string_of_uint_digits d) as Hdig. split_and!.
    + done.
    + unfold spaceless. apply every_cons. split; [reflexivity|].
      eapply every_impl; [|exact Hdig]. intros c Hc. by apply digit_plain.
    + unfold no_comma. apply every_cons. split; [reflexivity|].
      eapply every_impl; [|exact Hdig]. intros c Hc. by apply digit_plain.
Qed.

Lemma every_app (p : ascii -> bool) (a b : string) :
  every p (a +:+ b) = true <-> every p a = true /\ every p b = true.
Proof.
  induction a as [|c a IH]; cbn [String.append].
  - cbn. tauto.
  - rewrite !every_cons, IH. tauto.
Qed.

Lemma split_char_piece (w r : string) :
  no_comma w ->
  JsString.split_char "," (w +:+ r) = prefix_head w (JsString.split_char "," r).
Proof.
  unfold no_comma. induction w as [|c w IH].
  - intros _. cbn [String.append]. pose proof (split_char_nonempty "," r).
    by destruct (JsString.split_char "," r).
  - rewrite every_cons. intros [Hc Hw]. cbn [String.append JsString.split_char].
    apply negb_true_iff in Hc. rewrite Hc, (IH Hw).
    apply cons_head_prefix, split_char_nonempty.
Qed.

(** Cutting at the commas undoes joining with commas. *)
Lemma split_char_of_join (l : list string) :
  l <> [] -> Forall no_comma l -> JsString.split_char "," (join "," l) = l.
Proof.
  intros Hne Hall. induction Hall as [|w l Hw Hl IH]; [done|].
  destruct l as [|w' l'].
  - cbn [join]. rewrite <- (append_empty_r w) at 1.
    rewrite split_char_piece by done. cbn. by rewrite append_empty_r.
  - rewrite join_cons by done. rewrite split_char_piece by done.
    cbn [String.append JsString.split_char]. cbn [Ascii.eqb Bool.eqb].
    rewrite IH by done. cbn. by rewrite append_empty_r.
Qed.

Lemma entry_parsed (e : string * Z * string) :
  entry_padded e ->
  parseInt (JsString.trim (entry_text e)) = Some (integer_number e.1.2)
  /\ no_comma (entry_text e).
Proof.
  destruct e as [[pad1 z] pad2]. unfold entry_padded, entry_text. cbn [fst snd].
  intros [H1 H2]. destruct (Z_text_plain z) as [Hw Hc]. split.
  - pose proof (trimStart_word (Z_text z) "" Hw) as Hs. rewrite append_empty_r in Hs.
    pose proof (trim_padded pad1 "" (Z_text z) pad2 H1 H2 Hw Hs) as E.
    cbn [String.append] in E. rewrite E. apply parseInt_Z_text.
  - unfold no_comma. rewrite !every_app. split_and!; [|exact Hc|].
    + eapply every_impl; [|exact H1]. apply space_no_comma.
    + eapply every_impl; [|exact H2]. apply space_no_comma.
Qed.

Lemma parse_chat_ids_entries (entries : list (string * Z * string)) :
  Forall entry_padded entries ->
  parse_chat_ids (join "," (map entry_text entries))
  = map (fun e => Some (integer_number e.1.2)) entries.
Proof.
  intros Hall. destruct entries as [|e entries]; [reflexivity|].
  unfold parse_chat_ids. rewrite split_char_of_join.
  - rewrite map_map. induction Hall as [|x l Hx Hl IH]; [reflexivity|].
    cbn [map List.filter]. rewrite (proj1 (entry_parsed x Hx)). by rewrite IH.
  - discriminate.
  - clear -Hall. induction Hall as [|x l Hx Hl IH]; constructor; [|exact IH].
    by apply entry_parsed.
Qed.

(** [parseInt] reads nothing from a text that does not start as a
    numeral. *)
Lemma parseInt_NaN (s : string) : numeral_start s = false -> parseInt s = None.
Proof.
  unfold numeral_start, parseInt.
  destruct (read_sign (JsString.trimStart s)) as [neg s1]. cbn [snd].
  destruct s1 as [|c s1]; [reflexivity|].
  destruct c as [[] [] [] [] [] [] [] []]; intros H; try discriminate H; reflexivity.
Qed.

(** While messages are handled, the refusal goes only to a chat that
    the set, not empty, does not hold. *)
Lemma refusal_to_stranger (this : TradingBot) (msg : Message) (env : Env) (chatId : Z) :
  In (sendMessage chatId unauthorized_text)
     (trace (processUpdate (setupCommandHandlers this) msg env)) ->
  authorizedChatIds this <> ∅ /\ chat_id msg ∉ authorizedChatIds this.
Proof.
  intros Hin.
  destruct (decide (authorizedChatIds this = ∅)) as [He|He];
    [|destruct (decide (chat_id msg ∈ authorizedChatIds this)) as [Hm|Hm]; [|done]];
    exfalso.
  all: assert (authorizedChatIds this = ∅ \/ chat_id msg ∈ authorizedChatIds this) as Hauth
      by tauto.
  all: assert (Forall (to_chat (chat_id msg))
            (trace (processUpdate (setupCommandHandlers this) msg env))) as H.
  all: try (apply list_elem_of_In in Hin; rewrite Forall_forall in H;
            specialize (H _ Hin); cbn in H; tauto).
  all: unfold processUpdate; apply bind_events;
    [ cbn [message_listeners setupCommandHandlers run_listeners];
      apply bind_events; [|intros _; constructor];
      unfold message_listener; rewrite bind_run;
      pose proof (isAuthorized_granted this (chat_id msg) env Hauth) as Hg;
      pose proof (isAuthorized_events (to_chat (chat_id msg)) this (chat_id msg) env I) as Hv;
      destruct (isAuthorized this (chat_id msg) env) as [tr r]; cbn in Hg, Hv; subst r;
      cbn; by rewrite app_nil_r
    | intros _; destruct (text msg) as [s|]; [|constructor];
      destruct (JsString.truthy s); [|constructor];
      apply run_callbacks_well_behaved, callbacks_well_behaved ].
Qed.

Lemma run_refusals (this : TradingBot) (msgs : list Message) (env : Env) (chatId : Z) :
  In (sendMessage chatId unauthorized_text)
     (snd (run (this, setupCommandHandlers this) msgs env)) ->
  authorizedChatIds this <> ∅
  /\ exists msg, In msg msgs /\ chat_id msg ∉ authorizedChatIds this.
Proof.
  induction msgs as [|msg msgs IH]; cbn [run]; [intros []|].
  destruct (run (this, setupCommandHandlers this) msgs env) as [app' tr'] eqn:E.
  cbn [snd] in *. rewrite in_app_iff. intros [H|H].
  - apply refusal_to_stranger in H as [H1 H2]. split; [exact H1|].
    exists msg. split; [by left | exact H2].
  - destruct (IH H) as (H1 & m & Hm & H2). split; [exact H1|].
    exists m. split; [by right | exact H2].
Qed.

(** C10: the configuration string is cut at its commas, the pieces
    holding no comma and giving the string back when joined by commas;
    the set built by the constructor holds exactly the integers that
    [parseInt] reads from the trimmed pieces; a piece that is the
    decimal text of an integer of magnitude at most [2 ^ 53] between
    blanks puts that integer into the set; every member comes from a
    piece that starts, after its blanks and an optional sign, with a
    digit, the other pieces being dropped; when no piece starts so, the
    set is empty and every chat id is authorized; handling messages
    leaves the object as it was built, and the refusals sent meanwhile
    go to chats that the set as built, not empty, does not hold. *)
Theorem authorizedChatIds_from_configuration (TELEGRAM_CHATS_IDS : option string) :
  let chatIdsStr := default EmptyString TELEGRAM_CHATS_IDS in
  let entries := JsString.split_char "," chatIdsStr in
  let app := constructor TELEGRAM_CHATS_IDS in
  (join "," entries = chatIdsStr
   /\ forall entry, In entry entries -> ~ In ","%char (list_ascii_of_string entry))
  /\ (forall z, z ∈ authorizedChatIds (fst app) <->
     exists entry, In entry entries /\ parseInt (JsString.trim entry) = Some z)
  /\ (forall pad1 z pad2,
     In (pad1 +:+ Z_text z +:+ pad2) entries -> blank pad1 -> blank pad2 ->
     (Z.abs z <= 2 ^ 53)%Z ->
     z ∈ authorizedChatIds (fst app))
  /\ (forall z, z ∈ authorizedChatIds (fst app) ->
     exists entry, In entry entries /\ numeral_start (JsString.trim entry) = true)
  /\ ((forall entry, In entry entries -> numeral_start (JsString.trim entry) = false) ->
      authorizedChatIds (fst app) = ∅
      /\ forall chatId env, outcome (isAuthorized (fst app) chatId env) = inr true)
  /\ (forall msgs env,
      fst (run app msgs env) = app
      /\ forall chatId,
           In (sendMessage chatId unauthorized_text) (snd (run app msgs env)) ->
           authorizedChatIds (fst app) <> ∅
           /\ exists msg, In msg msgs /\ chat_id msg ∉ authorizedChatIds (fst app)).
Proof.
  intros chatIdsStr entries app.
  assert (forall z, z ∈ authorizedChatIds (fst app) <->
     exists entry, In entry entries /\ parseInt (JsString.trim entry) = Some z) as Hin.
  { intros z. subst app. rewrite constructor_chatIdsStr. cbn [authorizedChatIds].
    rewrite elem_of_Set_of. apply parse_chat_ids_In. }
  assert (forall z, z ∈ authorizedChatIds (fst app) ->
     exists entry, In entry entries /\ numeral_start (JsString.trim entry) = true) as Hnum.
  { intros z Hz. apply Hin in Hz as (entry & Hentry & Hz). exists entry. split; [exact Hentry|].
    destruct (numeral_start (JsString.trim entry)) eqn:E; [reflexivity|].
    apply parseInt_NaN in E. congruence. }
  split_and!.
  - apply (split_char_join ","%char).
  - intros entry. apply split_char_pieces.
  - exact Hin.
  - intros pad1 z pad2 Hentry H1 H2 Hz. apply Hin.
    exists (pad1 +:+ Z_text z +:+ pad2). split; [exact Hentry|].
    destruct (entry_parsed (pad1, z, pad2) (conj H1 H2)) as [E _].
    unfold entry_text in E. cbn [fst snd] in E. rewrite E.
    by rewrite integer_number_exact.
  - exact Hnum.
  - intros Hnone.
    assert (authorizedChatIds (fst app) = ∅) as E.
    { apply leibniz_equiv. apply elem_of_equiv_empty. intros z Hz.
      apply Hnum in Hz as (entry & Hentry & Hz). rewrite (Hnone entry Hentry) in Hz.
      discriminate. }
    split; [exact E|]. intros chatId env.
    by rewrite isAuthorized_open.
  - intros msgs env. split; [apply run_keeps|].
    intros chatId. subst app. unfold constructor. cbv zeta. cbn [fst].
    apply run_refusals.
Qed.

(** X13: a configuration string that lists integers of magnitude at
    most [2 ^ 53] in decimal, each between blanks, with commas between
    them, gives exactly the set of these integers. *)
Theorem configured_ids_authorized (entries : list (string * Z * string)) :
  Forall entry_padded entries ->
  Forall entry_safe entries ->
  authorizedChatIds (fst (constructor (Some (join "," (map entry_text entries)))))
  = list_to_set (map (fun e => e.1.2) entries).
Proof.
  intros Hall Hsafe. rewrite constructor_chatIdsStr. cbn [from_option id authorizedChatIds].
  rewrite parse_chat_ids_entries by done. unfold Set_of. f_equal.
  clear Hall. induction Hsafe as [|e l He Hl IH]; [reflexivity|].
  cbn. rewrite IH. unfold entry_safe in He. by rewrite integer_number_exact.
Qed.

Lemma parseFloat_uint (d : Decimal.uint) :
  d <> Decimal.Nil ->
  parseFloat (NilEmpty.string_of_uint d) = binary64 (inject_Z (uint_value 0 d)).
Proof.
  intros Hd. destruct d as [|d|d|d|d|d|d|d|d|d|d]; [done | ..];
    (unfold parseFloat; cbn [NilEmpty.string_of_uint];
     cbv beta iota zeta delta [JsString.trimStart JsString.is_space read_sign
        JsString.strip_prefix Ascii.eqb Bool.eqb
        nat_of_ascii N_of_ascii N_of_digits N.to_nat Pos.to_nat Pos.iter_op
        Nat.leb Nat.eqb andb orb N.add N.mul Pos.add Pos.mul Pos.succ Nat.add];
     cbn [read_digits];
     match goal with
     | |- context [decimal_digit ?c] =>
         let v := eval vm_compute in (decimal_digit c) in
         change (decimal_digit c) with v
     end; cbv iota;
     rewrite read_digits_uint; cbn [Nat.add read_exponent Z.of_nat Z.sub Z.opp Z.add];
     cbn [Qpower]; unfold Qmult, inject_Z; cbn [Qnum Qden Pos.mul];
     rewrite Z.mul_1_r; reflexivity).
Qed.

(** A positive integer up to [2 ^ 53], typed in decimal, is read as
    that integer. *)
Lemma parseFloat_Z_text (p : positive) :
  (Zpos p <= 2 ^ 53)%Z -> parseFloat (Z_text (Zpos p)) = of_Z (Zpos p).
Proof.
  intros Hp. destruct (Z_text_cases (Zpos p)) as (d & Hd & [[-> E]|[_ E]]).
  - rewrite E. rewrite parseFloat_uint by exact Hd. apply binary64_integer. lia.
  - exfalso. assert (0 <= uint_value 0 d)%Z; [|lia].
    clear. rewrite <- uint_value_of_uint. lia.
Qed.

(** X14: a positive integer up to [2 ^ 53] typed in decimal after the
    token is read as that integer, and gives a buy amount of the integer
    times [10^18] and, for a sold token of at most 22 decimals, a sell
    amount of the integer times [10^decimals]. *)
Theorem integer_amount_order (t : string) (p : positive) (tokenBalance : TokenBalance) :
  word t ->
  (Zpos p <= 2 ^ 53)%Z ->
  validate (Some (" " +:+ t +:+ " " +:+ Z_text (Zpos p))) = Valid t (Some (of_Z (Zpos p)))
  /\ is_value (amountToPay {| token := t; amount := Some (of_Z (Zpos p)) |} tokenBalance)
       (inject_Z (Zpos p) * inject_Z (10 ^ 18))
  /\ ((decimals tokenBalance <= 22)%nat ->
      is_value (amountToSell {| token := t; amount := Some (of_Z (Zpos p)) |} tokenBalance)
        (inject_Z (Zpos p) * inject_Z (10 ^ Z.of_nat (decimals tokenBalance)))).
Proof.
  intros Ht Hp. pose proof (parseFloat_Z_text p Hp) as Hx.
  assert (~ (inject_Z (Zpos p) == 0)%Q) as Hnz.
  { intros H. apply (Qeq_bool_neq (inject_Z (Zpos p)) 0); [reflexivity | exact H]. }
  split_and!.
  - pose proof (validate_two_words " " t " " (Z_text (Zpos p)) "") as E.
    rewrite append_empty_r in E. cbn [String.append] in E |- *.
    rewrite E; try done; [by rewrite Hx | apply Z_text_plain].
  - change (amountToPay ?x ?y) with (computed_amount buy x y).
    unfold of_Z. rewrite amount_set by exact Hnz. rewrite printed_integer by lia.
    rewrite BigNumber_pow10 by lia. apply times_Finite.
  - intros Hd. change (amountToSell ?x ?y) with (computed_amount sell x y).
    unfold of_Z. rewrite amount_set by exact Hnz. rewrite printed_integer by lia.
    rewrite BigNumber_pow10 by exact Hd. apply times_Finite.
Qed.

#[local] Arguments String.append : simpl never.

(** ** Commands in a text *)


Lemma bind_trace_l {A B : Type} (m : M A) (k : A -> M B) (env : Env) (ev : Event) :
  In ev (trace (m env)) -> In ev (trace ((m ≫= k) env)).
Proof.
  rewrite bind_run. destruct (m env) as [tr [e|a]]; cbn; [done|].
  destruct (k a env) as [tr' r]. cbn. intros H. apply in_or_app. by left.
Qed.

Lemma bind_trace_r {A B : Type} (m : M A) (k : A -> M B) (env : Env) (ev : Event) (a : A) :
  outcome (m env) = inr a -> In ev (trace (k a env)) -> In ev (trace ((m ≫= k) env)).
Proof.
  rewrite bind_run. destruct (m env) as [tr [e|a']]; cbn; [discriminate|].
  intros [= ->]. destruct (k a env) as [tr' r]. cbn. intros H. apply in_or_app. by right.
Qed.

Lemma message_listener_returns (this : TradingBot) (msg : Message) (env : Env) :
  returns (message_listener this msg) env.
Proof.
  unfold message_listener. apply bind_returns; [apply isAuthorized_returns|].
  intros a. destruct (_ && _); [apply emit_returns | apply mret_returns].
Qed.

Lemma listeners_return (this : TradingBot) (msg : Message) (env : Env) :
  outcome (run_listeners (message_listeners (setupCommandHandlers this)) msg env) = inr tt.
Proof.
  assert (returns (run_listeners (message_listeners (setupCommandHandlers this)) msg) env)
    as [[] H]; [|exact H].
  cbn [message_listeners setupCommandHandlers run_listeners].
  apply bind_returns; [apply message_listener_returns | intros _; apply mret_returns].
Qed.

(** The events of a callback whose expression matches are events of
    the run of the callbacks, when those before it are well behaved. *)
Lemma run_callbacks_In (msg : Message) (env : Env) (before after : list TextCallback)
    (regexp : RegExp) (callback : Message -> option string -> M unit)
    (s : string) (group : option string) (ev : Event) :
  Forall (well_behaved msg env) before ->
  RegExp_exec regexp s = Some group ->
  In ev (trace (callback msg group env)) ->
  In ev (trace (run_callbacks (before ++ (regexp, callback) :: after) msg s env)).
Proof.
  intros Hbefore Hexec Hev. induction Hbefore as [|[r cb] l Hcb Hl IH].
  - cbn [app run_callbacks]. apply bind_trace_l. by rewrite Hexec.
  - cbn [app run_callbacks].
    assert (returns (match RegExp_exec r s with
                     | Some g => cb msg g
                     | None => mret tt
                     end) env) as [[] Hret].
    { destruct (RegExp_exec r s) as [g|]; [apply Hcb | apply mret_returns]. }
    eapply bind_trace_r; [exact Hret | exact IH].
Qed.

Lemma processUpdate_callbacks (this : TradingBot) (msg : Message) (env : Env)
    (s : string) (ev : Event) :
  text msg = Some s ->
  s <> "" ->
  In ev (trace (run_callbacks (textRegexpCallbacks (setupCommandHandlers this)) msg s env)) ->
  In ev (trace (processUpdate (setupCommandHandlers this) msg env)).
Proof.
  intros Htext Hne Hev. unfold processUpdate.
  eapply bind_trace_r; [apply listeners_return|].
  rewrite Htext. destruct s; [done|]. exact Hev.
Qed.

(** X15: an authorized chat gets the help text for every text that
    holds [/help], wherever in the text it stands. *)
Theorem help_anywhere (this : TradingBot) (msg : Message) (env : Env) (pre post : string) :
  authorizedChatIds this = ∅ \/ chat_id msg ∈ authorizedChatIds this ->
  text msg = Some (pre +:+ "/help" +:+ post) ->
  In (sendMessage (chat_id msg) help_text)
     (trace (processUpdate (setupCommandHandlers this) msg env)).
Proof.
  intros Hauth Htext. eapply processUpdate_callbacks; [exact Htext | by destruct pre |].
  cbn [textRegexpCallbacks setupCommandHandlers].
  apply (run_callbacks_In msg env [] _ _ _ _ None); [constructor | |].
  - unfold RegExp_exec, JsString.exec.
    by destruct (search_app pre "/help" post) as [rest ->].
  - unfold help_callback.
    eapply bind_trace_r; [by apply isAuthorized_granted|]. cbn. by left.
Qed.

(** X16: when the text of an authorized chat matches the expression of
    [/buy] or [/sell] and the captured arguments pass the validation,
    everything the order does is part of what handling the message
    does. *)
Theorem order_dispatched (this : TradingBot) (command : CommandType) (msg : Message)
    (env : Env) (s captured token : string) (amount : option number) (ev : Event) :
  authorizedChatIds this = ∅ \/ chat_id msg ∈ authorizedChatIds this ->
  text msg = Some s ->
  RegExp_exec (RegExp_capture (command_pattern command)) s = Some (Some captured) ->
  validate (Some captured) = Valid token amount ->
  In ev (trace (handleCommand command msg token amount env)) ->
  In ev (trace (processUpdate (setupCommandHandlers this) msg env)).
Proof.
  intros Hauth Htext Hexec Hvalid Hev.
  eapply processUpdate_callbacks; [exact Htext | |].
  { intros ->. destruct command; discriminate Hexec. }
  assert (In ev (trace (order_callback this command msg (Some captured) env))) as Hcb.
  { unfold order_callback.
    eapply bind_trace_r; [by apply isAuthorized_granted|]. cbn [negb].
    by rewrite Hvalid. }
  cbn [textRegexpCallbacks setupCommandHandlers]. destruct command.
  - apply (run_callbacks_In msg env [(RegExp_literal "/help", help_callback this)]
             _ _ _ _ (Some captured)); [|exact Hexec|exact Hcb].
    constructor; [apply help_callback_well_behaved | constructor].
  - apply (run_callbacks_In msg env
             [(RegExp_literal "/help", help_callback this);
              (RegExp_capture "/buy", order_callback this buy)]
             _ _ _ _ (Some captured)); [|exact Hexec|exact Hcb].
    constructor; [apply help_callback_well_behaved|].
    constructor; [apply order_callback_well_behaved | constructor].
Qed.



Lemma strip_prefix_no_slash (p s : string) :
  slashless s -> JsString.strip_prefix (String "/" p) s = None.
Proof.
  unfold slashless. destruct s as [|c s]; [reflexivity|].
  rewrite every_cons. intros [Hc _]. cbn [JsString.strip_prefix].
  apply negb_true_iff in Hc. rewrite Ascii.eqb_sym. by rewrite Hc.
Qed.

Lemma search_no_slash (p s : string) :
  slashless s -> JsString.search (String "/" p) s = None.
Proof.
  induction s as [|c s IH]; intros Hs.
  - reflexivity.
  - cbn [JsString.search]. rewrite strip_prefix_no_slash by done.
    apply every_cons in Hs as [_ Hs]. by apply IH.
Qed.

(** X19: a message without a text, or with a text that holds no slash,
    gets no chat message from any chat; all that happens is the
    authorization check of the middleware. *)
Theorem plain_text_ignored (this : TradingBot) (msg : Message) (env : Env) :
  match text msg with Some s => slashless s | None => True end ->
  processUpdate (setupCommandHandlers this) msg env
  = (trace (isAuthorized this (chat_id msg) env), inr tt)
  /\ count is_sendMessage (trace (processUpdate (setupCommandHandlers this) msg env)) = 0%nat.
Proof.
  intros Htext.
  assert (processUpdate (setupCommandHandlers this) msg env
          = (trace (isAuthorized this (chat_id msg) env), inr tt)) as E.
  { unfold processUpdate. rewrite bind_run.
    cbn [message_listeners setupCommandHandlers run_listeners].
    rewrite bind_run. unfold message_listener. rewrite bind_run.
    assert (match text msg with
            | Some s => JsString.startsWith s "/"
            | None => false
            end = false) as Hstart.
    { destruct (text msg) as [s|]; [|reflexivity].
      unfold JsString.startsWith. by rewrite strip_prefix_no_slash. }
    destruct (isAuthorized_returns this (chat_id msg) env) as [a Ha].
    destruct (isAuthorized this (chat_id msg) env) as [tr r]. cbn in Ha. subst r.
    rewrite Hstart, andb_false_r. unfold mret, M_ret. cbn [trace fst]. rewrite !app_nil_r.
    destruct (text msg) as [s|]; [|by rewrite app_nil_r].
    destruct (JsString.truthy s); [|by rewrite app_nil_r].
    cbn [run_callbacks textRegexpCallbacks setupCommandHandlers].
    unfold RegExp_exec, JsString.exec, JsString.exec_group.
    rewrite !search_no_slash by done. unfold mbind, M_bind, mret, M_ret. cbn.
    by rewrite app_nil_r. }
  split; [exact E|]. rewrite E. cbn [trace fst]. rewrite isAuthorized_run.
  by destruct (size (authorizedChatIds this) =? 0)%nat.
Qed.

(** ** The further properties at the sample data *)

Lemma sample_member : 1%Z ∈ authorizedChatIds (fst Sample.app).
Proof.
  apply (bool_decide_eq_true_1 (1%Z ∈ authorizedChatIds (fst Sample.app))).
  vm_compute. reflexivity.
Qed.

Lemma replies_go_to_sender_witness : 1%Z = chat_id (Sample.msg 1 "/help").
Proof.
  apply (replies_go_to_sender (fst Sample.app) (Sample.msg 1 "/help") (Sample.env 1000)
           1 help_text).
  vm_compute. left. reflexivity.
Defined.

Lemma authorized_never_refused_witness :
  ~ In (sendMessage 1 unauthorized_text)
       (trace (processUpdate (setupCommandHandlers (fst Sample.app))
                 (Sample.msg 1 "/buy TKN-1 10") (Sample.env 1000))).
Proof.
  apply (authorized_never_refused (fst Sample.app) (Sample.msg 1 "/buy TKN-1 10")
           (Sample.env 1000) 1).
  right. exact sample_member.
Defined.

Lemma findContractAddress_failure_witness :
  (exists m,
      message {| message := wrapped "TKN-1" "Request failed with status code 503" |}
      = wrapped "TKN-1" m
      /\ In (console_error "Error finding contract address:" m)
           (trace (findContractAddress "TKN-1" sample_env_registry_down)))
  /\ count is_queryContract (trace (findContractAddress "TKN-1" sample_env_registry_down))
     = 1%nat
  /\ count is_sendMessage (trace (findContractAddress "TKN-1" sample_env_registry_down))
     = 0%nat.
Proof.
  exact (findContractAddress_failure "TKN-1" sample_env_registry_down
           {| message := wrapped "TKN-1" "Request failed with status code 503" |} eq_refl).
Defined.

Lemma findContractAddress_sound_witness :
  exists data c,
    queryContract_answer (Sample.env 1000) = inr (Some data)
    /\ In c data
    /\ first_token_id c = "TKN-1"
    /\ address c = "erd1qqqqqqqqqqqqqabc"
    /\ trace (findContractAddress "TKN-1" (Sample.env 1000))
       = [queryContract registry "getAllBondingMetadata"].
Proof.
  exact (findContractAddress_sound "TKN-1" (Sample.env 1000) "erd1qqqqqqqqqqqqqabc" eq_refl).
Defined.

Lemma sample_call_submitted :
  In (callContract Sample.call_10)
     (trace (handleCommand buy (Sample.msg 1 "/buy TKN-1 10") "TKN-1" (Some (Finite 10))
               (Sample.env 1000))).
Proof. vm_compute. do 7 right. left. reflexivity. Qed.

Lemma submitted_amount_valid_witness :
  exists wallet response tokenBalance,
    api_get_answer (Sample.env 1000) (tokens_url wallet) = inr response
    /\ List.find (fun t => String.eqb (identifier t) base_token) response = Some tokenBalance
    /\ ~ not_positive
         (computed_amount buy {| token := "TKN-1"; amount := Some (Finite 10) |} tokenBalance)
    /\ map esdt_amount (esdts Sample.call_10)
       = [Math_floor
            (BigNumber.toNumber
               (computed_amount buy {| token := "TKN-1"; amount := Some (Finite 10) |}
                  tokenBalance))]
    /\ nonnegative
         (Math_floor
            (BigNumber.toNumber
               (computed_amount buy {| token := "TKN-1"; amount := Some (Finite 10) |}
                  tokenBalance))).
Proof.
  exact (submitted_amount_valid buy (Sample.msg 1 "/buy TKN-1 10") "TKN-1"
           (Some (Finite 10)) (Sample.env 1000) Sample.call_10 sample_call_submitted).
Defined.

Lemma order_success_witness :
  handleCommand buy (Sample.msg 1 "/buy TKN-1 10") "TKN-1" (Some (Finite 10))
    (Sample.env 1000)
  = ([ sendMessage 1 "🔍 Processing buy order for token: TKN-1...";
       queryContract registry "getAllBondingMetadata";
       sendMessage 1 "✅ Found trading contract: erd1qqqq...qabc";
       newWalletFromFile;
       api_get "/accounts/erd1wallet/tokens";
       sendMessage 1 "💫 Submitting transaction to blockchain...";
       newWalletFromFile;
       callContract Sample.call_10;
       sendMessage 1 (success_text {| explorerUrl := Some "https://explorer/tx/1" |}) ],
     inr tt).
Proof.
  refine (order_success buy (Sample.msg 1 "/buy TKN-1 10") "TKN-1" (Some (Finite 10))
            (Sample.env 1000) Sample.metadata
            {| first_token_id := "TKN-1"; address := "erd1qqqqqqqqqqqqqabc" |}
            "erd1wallet" (Sample.tokens 1000)
            {| identifier := "ONE-f9954f"; balance := of_Z 1000; decimals := 18 |}
            {| explorerUrl := Some "https://explorer/tx/1" |}
            eq_refl eq_refl eq_refl eq_refl eq_refl _ eq_refl).
  rewrite <- invalid_not_positive. vm_compute. discriminate.
Defined.

Lemma default_amount_bounds_witness :
  exists k : Z,
    Math_floor
      (BigNumber.toNumber
         (computed_amount buy Sample.buy_all (Sample.base_entry Sample.large_balance)))
    = of_Z k
    /\ (0 <= k)%Z
    /\ (inject_Z k <= inject_Z Sample.large_balance)%Q
    /\ (inject_Z Sample.large_balance * (98 # 100) * (1 - (1 # 2 ^ 52))
        < inject_Z (k + 1))%Q.
Proof.
  apply (default_amount_bounds buy Sample.buy_all (Sample.base_entry Sample.large_balance)
           (inject_Z Sample.large_balance));
    [reflexivity | reflexivity | vm_compute; discriminate | vm_compute; reflexivity].
Defined.

Lemma sample_word : word "TKN-1".
Proof. split; [discriminate | reflexivity]. Qed.

Lemma validate_words_witness :
  validate (Some (" " +:+ "TKN-1" +:+ "")) = Valid "TKN-1" None
  /\ validate (Some (" " +:+ ("TKN-1" +:+ "  " +:+ "2.5") +:+ " "))
     = Valid "TKN-1" (Some (parseFloat "2.5")).
Proof.
  destruct (validate_words " " "TKN-1" "" eq_refl sample_word eq_refl) as [H1 H2].
  split; [exact H1|].
  refine (H2 "  " "2.5" eq_refl _ _); [discriminate | split; [discriminate | reflexivity]].
Defined.

Lemma validate_token_spaceless_witness : spaceless "TKN-1".
Proof.
  exact (validate_token_spaceless (Some " TKN-1 10") "TKN-1" (Some (Finite 10)) eq_refl).
Defined.

Lemma capture_stops_at_line_end_witness :
  RegExp_exec (RegExp_capture "/buy")
    ("/buy" +:+ " TKN-1 10" +:+ String (ascii_of_nat 10) "and more")
  = Some (Some " TKN-1 10")
  /\ RegExp_exec (RegExp_capture "/buy") ("/buy" +:+ " TKN-1 10") = Some (Some " TKN-1 10").
Proof.
  exact (capture_stops_at_line_end "/buy" " TKN-1 10" "and more" (ascii_of_nat 10)
           eq_refl eq_refl).
Defined.

Lemma configured_ids_authorized_witness :
  authorizedChatIds (fst (constructor (Some (join "," (map entry_text sample_entries)))))
  = list_to_set (map (fun e => e.1.2) sample_entries).
Proof.
  apply (configured_ids_authorized sample_entries).
  - constructor; [split; reflexivity|]. constructor; [split; reflexivity|]. constructor.
  - constructor; [vm_compute; discriminate|]. constructor; [vm_compute; discriminate|].
    constructor.
Defined.

Lemma integer_amount_order_witness :
  validate (Some (" " +:+ "TKN-1" +:+ " " +:+ Z_text 10)) = Valid "TKN-1" (Some (of_Z 10))
  /\ is_value (amountToPay {| token := "TKN-1"; amount := Some (of_Z 10) |} Sample.one_unit)
       (inject_Z 10 * inject_Z (10 ^ 18))
  /\ ((decimals Sample.one_unit <= 22)%nat ->
      is_value (amountToSell {| token := "TKN-1"; amount := Some (of_Z 10) |} Sample.one_unit)
        (inject_Z 10 * inject_Z (10 ^ Z.of_nat (decimals Sample.one_unit)))).
Proof.
  apply (integer_amount_order "TKN-1" 10 Sample.one_unit sample_word).
  vm_compute. discriminate.
Defined.

Lemma authorizedChatIds_from_configuration_witness :
  (authorizedChatIds (fst (constructor (Some "abc, ,x1"))) = ∅
   /\ forall chatId env,
        outcome (isAuthorized (fst (constructor (Some "abc, ,x1"))) chatId env) = inr true)
  /\ 7%Z ∈ authorizedChatIds (fst (constructor (Some "7, -1001234567890")))
  /\ (-1001234567890)%Z ∈ authorizedChatIds (fst (constructor (Some "7, -1001234567890"))).
Proof.
  split; [|split].
  - apply (proj1 (proj2 (proj2 (proj2 (proj2
             (authorizedChatIds_from_configuration (Some "abc, ,x1"))))))).
    intros entry Hentry. cbn in Hentry.
    destruct Hentry as [<-|[<-|[<-|[]]]]; reflexivity.
  - apply (proj1 (proj2 (proj2 (authorizedChatIds_from_configuration
                                   (Some "7, -1001234567890")))) "" 7%Z "");
      [left; reflexivity | reflexivity | reflexivity | vm_compute; discriminate].
  - apply (proj1 (proj2 (proj2 (authorizedChatIds_from_configuration
                                   (Some "7, -1001234567890")))) " " (-1001234567890)%Z "");
      [right; left; reflexivity | reflexivity | reflexivity | vm_compute; discriminate].
Defined.

Lemma help_anywhere_witness :
  In (sendMessage 1 help_text)
     (trace (processUpdate (setupCommandHandlers (fst Sample.app))
               (Sample.msg 1 "please /help me") (Sample.env 1000))).
Proof.
  apply (help_anywhere (fst Sample.app) (Sample.msg 1 "please /help me") (Sample.env 1000)
           "please " " me"); [right; exact sample_member | reflexivity].
Defined.

Lemma order_dispatched_witness :
  In (callContract Sample.call_10)
     (trace (processUpdate (setupCommandHandlers (fst Sample.app))
               (Sample.msg 1 "/buy TKN-1 10") (Sample.env 1000))).
Proof.
  apply (order_dispatched (fst Sample.app) buy (Sample.msg 1 "/buy TKN-1 10")
           (Sample.env 1000) "/buy TKN-1 10" " TKN-1 10" "TKN-1" (Some (Finite 10))).
  - right. exact sample_member.
  - reflexivity.
  - reflexivity.
  - vm_compute. reflexivity.
  - exact sample_call_submitted.
Defined.



Lemma plain_text_ignored_witness :
  processUpdate (setupCommandHandlers (fst Sample.app)) (Sample.msg 42 "hello") (Sample.env 1000)
  = (trace (isAuthorized (fst Sample.app) 42 (Sample.env 1000)), inr tt)
  /\ count is_sendMessage
       (trace (processUpdate (setupCommandHandlers (fst Sample.app))
                 (Sample.msg 42 "hello") (Sample.env 1000))) = 0%nat.
Proof.
  apply (plain_text_ignored (fst Sample.app) (Sample.msg 42 "hello") (Sample.env 1000)).
  reflexivity.
Defined.

